(** * ipsa_sched.c: the fixed-priority task set of the FreeRTOS demo

    A shallow embedding of [src/ipsa_sched.c]: the registrar [ipsa_sched],
    the four periodic tasks and the aperiodic task.  Every task is an
    endless [for (;;)] loop; it is modelled by the state of its local
    variables at the top of the loop and by the function that runs the body
    of the loop once, returning the new locals and the calls the body made
    (console output, delays). *)

From Stdlib Require Import ZArith List Lia Bool String Sorted RelationClasses.
From Stdlib Require Import QArith Qabs.
From Stdlib Require Import Floats.SpecFloat.
Import ListNotations.
Local Open Scope Z_scope.

(** ** C integers *)

Module CInt.

(** A signed integer of [w] bits holds [-2^(w-1) .. 2^(w-1)-1]. *)
Definition smin (w : Z) : Z := - 2 ^ (w - 1).
Definition smax (w : Z) : Z := 2 ^ (w - 1) - 1.

Definition fits (w z : Z) : bool := (smin w <=? z) && (z <=? smax w).

(** Two's-complement wrap-around to [w] bits.  Signed overflow is undefined
    in C; the operations below give the result the two's-complement target
    computes, and [fits] tells whether the exact result was representable. *)
Definition wrap (w z : Z) : Z := (z + 2 ^ (w - 1)) mod 2 ^ w - 2 ^ (w - 1).

(** [int] is 32 bits wide on every port of the kernel. *)
Definition int_bits : Z := 32.
Definition INT_MIN : Z := smin int_bits.
Definition INT_MAX : Z := smax int_bits.

Definition int_add (a b : Z) : Z := wrap int_bits (a + b).
Definition int_sub (a b : Z) : Z := wrap int_bits (a - b).
(** C division truncates towards zero. *)
Definition int_div (a b : Z) : Z := wrap int_bits (Z.quot a b).

(** The mathematical result of an [int] operation is representable. *)
Definition int_ok (z : Z) : bool := fits int_bits z.

Definition long_mul (w a b : Z) : Z := wrap w (a * b).

End CInt.

Import CInt.

(** ** Kernel configuration

    The macros of FreeRTOSConfig.h, task.h and portmacro.h that
    [ipsa_sched.c] uses are not part of the file; they are the fields of a
    configuration the whole development is parameterised by. *)

Record config := {
  portTICK_PERIOD_MS : Z;        (* milliseconds per tick, a TickType_t *)
  tskIDLE_PRIORITY : Z;          (* a UBaseType_t *)
  configMINIMAL_STACK_SIZE : Z;
  UBaseType_bits : Z;            (* width of the unsigned UBaseType_t *)
  long_bits : Z                  (* width of long int on the target *)
}.

(** The configuration of the Linux (posix) port the file's header speaks of:
    a 1 kHz tick, the idle task at priority 0, the smallest pthread stack
    (16 KiB), UBaseType_t an unsigned long, and the LP64 data model (64-bit
    long). *)
Definition linux_port : config :=
  {| portTICK_PERIOD_MS := 1;
     tskIDLE_PRIORITY := 0;
     configMINIMAL_STACK_SIZE := 16384;
     UBaseType_bits := 64;
     long_bits := 64 |}.

Definition mainQUEUE_LENGTH : Z := 2.
Definition TASK1_PERIOD_MS (c : config) : Z := 166 / portTICK_PERIOD_MS c.
Definition TASK2_PERIOD_MS (c : config) : Z := 170 / portTICK_PERIOD_MS c.
Definition TASK3_PERIOD_MS (c : config) : Z := 186 / portTICK_PERIOD_MS c.
Definition TASK4_PERIOD_MS (c : config) : Z := 166 / portTICK_PERIOD_MS c.
Definition APERIODIC_TASK_DELAY_MS (c : config) : Z := 50 / portTICK_PERIOD_MS c.

(** [tskIDLE_PRIORITY + k] is computed in the unsigned type UBaseType_t. *)
Definition ubase_add (c : config) (a b : Z) : Z := (a + b) mod 2 ^ UBaseType_bits c.

Definition TASK1_PRIORITY (c : config) : Z := ubase_add c (tskIDLE_PRIORITY c) 1.
Definition TASK2_PRIORITY (c : config) : Z := ubase_add c (tskIDLE_PRIORITY c) 2.
Definition TASK3_PRIORITY (c : config) : Z := ubase_add c (tskIDLE_PRIORITY c) 3.
Definition TASK4_PRIORITY (c : config) : Z := ubase_add c (tskIDLE_PRIORITY c) 4.
Definition APERIODIC_TASK_PRIORITY (c : config) : Z := ubase_add c (tskIDLE_PRIORITY c) 5.

(** The priority arithmetic does not wrap: the idle priority leaves room for
    five more levels in UBaseType_t. *)
Definition priorities_fit (c : config) : Prop :=
  0 <= tskIDLE_PRIORITY c /\ tskIDLE_PRIORITY c + 5 < 2 ^ UBaseType_bits c.

(** ** What a task body does to the outside

    The calls a task body makes, in program order.  The queue operations
    and the absolute delay are part of the kernel's interface although no
    body of this file uses them. *)

Inductive arg :=
| ALong (z : Z)
| ADouble (f : spec_float).

Inductive call :=
| printf (format : string) (args : list arg)
| vTaskDelay (xTicksToDelay : Z)
| vTaskDelayUntil (xTimeIncrement : Z)
| xQueueSend (item : Z)
| xQueueReceive.

Definition is_suspension (e : call) : bool :=
  match e with
  | vTaskDelay _ | vTaskDelayUntil _ => true
  | _ => false
  end.

Definition is_queue_access (e : call) : bool :=
  match e with
  | xQueueSend _ | xQueueReceive => true
  | _ => false
  end.

(** A task: the locals as they are when the [for (;;)] loop is first
    entered, and one run of the loop's body.  [None] is a run that leaves
    defined behaviour (an array access out of bounds). *)
Record task (L : Type) := {
  locals0 : L;
  body : L -> option (L * list call)
}.
Arguments locals0 {L} _.
Arguments body {L} _ _.

(** The locals at the top of iteration [n] (the first iteration is 0). *)
Fixpoint locals_at {L} (t : task L) (n : nat) : option L :=
  match n with
  | O => Some (locals0 t)
  | S k =>
      match locals_at t k with
      | Some l => option_map fst (body t l)
      | None => None
      end
  end.

(** The calls made by iteration [n]. *)
Definition calls_at {L} (t : task L) (n : nat) : option (list call) :=
  match locals_at t n with
  | Some l => option_map snd (body t l)
  | None => None
  end.

(** ** vPeriodicTask1 *)

Definition vPeriodicTask1 (c : config) : task unit := {|
  locals0 := tt;
  body := fun l => Some (l, [printf "Working 1\n" []; vTaskDelay (TASK1_PERIOD_MS c)])
|}.

(** ** vPeriodicTask2

    [float] is IEEE binary32: 24 bits of precision, largest exponent 128. *)

Definition f32 (z : Z) : spec_float := binary_normalize 24 128 z 0 false.
Definition f32_sub := SFsub 24 128.
Definition f32_mul := SFmul 24 128.
Definition f32_div := SFdiv 24 128.

Record task2_locals := { fahrenheit : spec_float }.

Definition vPeriodicTask2 (c : config) : task task2_locals := {|
  locals0 := {| fahrenheit := f32 100 |};
  body := fun l =>
    let celsius := f32_div (f32_mul (f32_sub (fahrenheit l) (f32 32)) (f32 5)) (f32 9) in
    Some (l, [printf "Fahrenheit: %f, Celsius: %f\n" [ADouble (fahrenheit l); ADouble celsius];
              vTaskDelay (TASK2_PERIOD_MS c)])
|}.

(** ** vPeriodicTask3 *)

Record task3_locals := { num1 : Z; num2 : Z; result : Z }.

Definition vPeriodicTask3 (c : config) : task task3_locals := {|
  locals0 := {| num1 := wrap (long_bits c) 9876543210;
                num2 := wrap (long_bits c) 1234567890;
                result := 0 |};
  body := fun l =>
    let result' := long_mul (long_bits c) (num1 l) (num2 l) in
    Some ({| num1 := num1 l; num2 := num2 l; result := result' |},
          [printf "Result: %ld\n" [ALong result']; vTaskDelay (TASK3_PERIOD_MS c)])
|}.

(** The multiplication of iteration [n] stays inside [long int]. *)
Definition task3_mul_fits (c : config) (l : task3_locals) : bool :=
  fits (long_bits c) (num1 l * num2 l).

(** ** aperiodicTask1 *)

Definition aperiodicTask1 (c : config) : task unit := {|
  locals0 := tt;
  body := fun l => Some (l, [vTaskDelay (APERIODIC_TASK_DELAY_MS c);
                             printf "Aperiodic task 1 finished\n" []])
|}.

(** ** vPeriodicTask4 *)

(** The locals of the task; [list_] is the array [list] of the source and
    [mid] holds no value until the first probe assigns it. *)
Record task4_locals := {
  list_ : list Z;
  element_to_find : Z;
  low : Z;
  high : Z;
  mid : option Z;
  found : Z
}.

(** [a[i]]: defined only inside the array. *)
Definition index (a : list Z) (i : Z) : option Z :=
  if (0 <=? i) && (i <? Z.of_nat (List.length a)) then nth_error a (Z.to_nat i) else None.

(** [(low + high) / 2], in [int] arithmetic. *)
Definition midpoint (s : task4_locals) : Z := int_div (int_add (low s) (high s)) 2.

Inductive step :=
| Exit                          (* the test [low <= high] fails *)
| Break (s : task4_locals)      (* [found = 1; break;] *)
| Continue (s : task4_locals)   (* a bound was moved, back to the test *)
| Fault.                        (* [list[mid]] outside the array *)

(** The test of the [while] and, when it holds, one run of its body. *)
Definition loop_step (s : task4_locals) : step :=
  if low s <=? high s then
    let m := midpoint s in
    match index (list_ s) m with
    | None => Fault
    | Some v =>
        if v =? element_to_find s then
          Break {| list_ := list_ s; element_to_find := element_to_find s;
                   low := low s; high := high s; mid := Some m; found := 1 |}
        else if v <? element_to_find s then
          Continue {| list_ := list_ s; element_to_find := element_to_find s;
                      low := int_add m 1; high := high s; mid := Some m; found := found s |}
        else
          Continue {| list_ := list_ s; element_to_find := element_to_find s;
                      low := low s; high := int_sub m 1; mid := Some m; found := found s |}
    end
  else Exit.

Inductive outcome :=
| Done (s : task4_locals)
| Undefined
| OutOfFuel.

(** The [while] loop; [fuel] bounds the number of times the body runs. *)
Fixpoint while_loop (fuel : nat) (s : task4_locals) : outcome :=
  match loop_step s with
  | Exit => Done s
  | Break s' => Done s'
  | Fault => Undefined
  | Continue s' =>
      match fuel with
      | O => OutOfFuel
      | S k => while_loop k s'
      end
  end.

(** The states in which the body of the [while] is entered, in order: one
    per probe of the array. *)
Fixpoint probes (fuel : nat) (s : task4_locals) : list task4_locals :=
  match loop_step s with
  | Exit => []
  | Break _ | Fault => [s]
  | Continue s' =>
      s :: match fuel with
           | O => []
           | S k => probes k s'
           end
  end.

(** Every run of the body that moves a bound removes at least one candidate
    from [low .. high], so the number of candidates bounds the runs. *)
Definition candidates (s : task4_locals) : nat := Z.to_nat (high s - low s + 1).

Definition search (s : task4_locals) : outcome := while_loop (candidates s) s.

Definition vPeriodicTask4_body (c : config) (s : task4_locals) : option (task4_locals * list call) :=
  match search s with
  | Done s' =>
      Some (s', [printf (if found s' =? 0 then "Element not found\n" else "Element found\n") [];
                 vTaskDelay (TASK4_PERIOD_MS c)])
  | _ => None
  end.

(** The locals with which a search over [a] for [x] starts: the source has
    [a] the fifty numbers below, [x = 25] and [high = 49]. *)
Definition search_locals (a : list Z) (x : Z) : task4_locals :=
  {| list_ := a; element_to_find := x;
     low := 0; high := int_sub (Z.of_nat (List.length a)) 1; mid := None; found := 0 |}.

Definition list50 : list Z :=
  [1; 2; 3; 4; 5; 6; 7; 8; 9; 10; 11; 12; 13; 14; 15; 16; 17; 18; 19; 20;
   21; 22; 23; 24; 25; 26; 27; 28; 29; 30; 31; 32; 33; 34; 35; 36; 37; 38; 39; 40;
   41; 42; 43; 44; 45; 46; 47; 48; 49; 50].

Definition vPeriodicTask4 (c : config) : task task4_locals := {|
  locals0 := {| list_ := list50; element_to_find := 25;
                low := 0; high := 49; mid := None; found := 0 |};
  body := vPeriodicTask4_body c
|}.

(** The search over [a] for [x] returns and decides membership: it ends
    with the found flag set exactly when [x] is in [a], and with
    [low > high] when it is not. *)
Definition search_decides (a : list Z) (x : Z) : Prop :=
  exists s',
    search (search_locals a x) = Done s' /\
    (found s' <> 0 <-> In x a) /\
    (~ In x a -> found s' = 0 /\ high s' < low s').

(** What an array access in bounds means for a probe made in state [p] of
    [vPeriodicTask4]: the bounds and the midpoint are ordered inside
    [0 .. 49], [low + high] is an [int], and [list[mid]] exists. *)
Definition probe_in_bounds (p : task4_locals) : Prop :=
  0 <= low p /\ low p <= midpoint p /\ midpoint p <= high p /\ high p <= 49 /\
  int_ok (low p + high p) = true /\
  index (list_ p) (midpoint p) <> None.

(** The locals of [vPeriodicTask4] from the second iteration on. *)
Definition task4_steady : task4_locals :=
  {| list_ := list50; element_to_find := 25;
     low := 0; high := 49; mid := Some 24; found := 1 |}.

(** All locals of the task are, at the top of every iteration, what they
    were when the loop was entered. *)
Definition locals_immutable {L} (t : task L) : Prop :=
  forall n, locals_at t n = Some (locals0 t).

(** ** The kernel as the registrar sees it *)

Inductive entry :=
| code_vPeriodicTask1
| code_vPeriodicTask2
| code_vPeriodicTask3
| code_vPeriodicTask4
| code_aperiodicTask1.

(** The arguments of [xTaskCreate] that are not NULL. *)
Record descriptor := {
  pxTaskCode : entry;
  pcName : string;
  usStackDepth : Z;
  uxPriority : Z
}.

(** What [ipsa_sched] does, in program order, with the result of each
    kernel call. *)
Inductive action :=
| queue_create (uxQueueLength uxItemSize : Z) (handle : option nat)
| store_xQueue (handle : option nat)
| load_xQueue
| task_create (d : descriptor) (created : bool)
| start_scheduler (started : bool).

Record world := {
  heap : nat -> bool;             (* does the n-th allocation request succeed *)
  requests : nat;                 (* allocation requests made so far *)
  queues : list (Z * Z);          (* the queues of the kernel: length, item size *)
  registered : list descriptor;   (* the tasks of the kernel *)
  started : bool;                 (* the scheduler runs *)
  xQueue : option nat;            (* the file-scope handle, NULL at first *)
  actions : list action
}.

Definition boot (h : nat -> bool) : world :=
  {| heap := h; requests := 0; queues := []; registered := []; started := false;
     xQueue := None; actions := [] |}.

(** The two ways in which a call does not return. *)
Inductive halt :=
| scheduler_running
| idle_loop.

Definition M (A : Type) : Type := world -> (A + halt) * world.

Definition ret {A} (a : A) : M A := fun w => (inl a, w).

Definition bind {A B} (m : M A) (k : A -> M B) : M B :=
  fun w =>
    match m w with
    | (inl a, w') => k a w'
    | (inr h, w') => (inr h, w')
    end.

Notation "x <- m ;; k" := (bind m (fun x => k))
  (at level 61, m at next level, right associativity).
Notation "m ;; k" := (bind m (fun _ => k))
  (at level 61, right associativity).

Definition stop {A} (h : halt) : M A := fun w => (inr h, w).

Definition record (a : action) : M unit :=
  fun w => (inl tt,
            {| heap := heap w; requests := requests w; queues := queues w;
               registered := registered w; started := started w; xQueue := xQueue w;
               actions := actions w ++ [a] |}).

Definition allocate : M bool :=
  fun w => (inl (heap w (requests w)),
            {| heap := heap w; requests := S (requests w); queues := queues w;
               registered := registered w; started := started w; xQueue := xQueue w;
               actions := actions w |}).

Definition add_queue (len size : Z) : M nat :=
  fun w => (inl (List.length (queues w)),
            {| heap := heap w; requests := requests w; queues := queues w ++ [(len, size)];
               registered := registered w; started := started w; xQueue := xQueue w;
               actions := actions w |}).

Definition add_task (d : descriptor) : M unit :=
  fun w => (inl tt,
            {| heap := heap w; requests := requests w; queues := queues w;
               registered := registered w ++ [d]; started := started w; xQueue := xQueue w;
               actions := actions w |}).

Definition set_started : M unit :=
  fun w => (inl tt,
            {| heap := heap w; requests := requests w; queues := queues w;
               registered := registered w; started := true; xQueue := xQueue w;
               actions := actions w |}).

(** Modelled from the spec: [xQueueCreate] is kernel code outside the file;
    the spec gives create-queue(capacity, item-size) -> handle or failure,
    failing when memory is exhausted. *)
Definition xQueueCreate (len size : Z) : M (option nat) :=
  ok <- allocate ;;
  if ok : bool then
    q <- add_queue len size ;;
    record (queue_create len size (Some q)) ;;
    ret (Some q)
  else
    record (queue_create len size None) ;;
    ret None.

(** Modelled from the spec: [xTaskCreate] is kernel code outside the file;
    the spec gives create-task(entry, name, stack-size, priority) -> handle
    or failure.  The created task is handed to the scheduler. *)
Definition xTaskCreate (code : entry) (name : string) (depth prio : Z) : M bool :=
  let d := {| pxTaskCode := code; pcName := name; usStackDepth := depth; uxPriority := prio |} in
  ok <- allocate ;;
  (if ok : bool then add_task d else ret tt) ;;
  record (task_create d ok) ;;
  ret ok.

(** Modelled from the spec: [vTaskStartScheduler] is kernel code outside the
    file; the spec gives start-scheduler() -> never returns on success, and
    the source's comment has it return when the heap has no room for the
    idle task. *)
Definition vTaskStartScheduler : M unit :=
  ok <- allocate ;;
  record (start_scheduler ok) ;;
  if ok : bool then set_started ;; stop scheduler_running else ret tt.

Definition write_xQueue (q : option nat) : M unit :=
  record (store_xQueue q) ;;
  fun w => (inl tt,
            {| heap := heap w; requests := requests w; queues := queues w;
               registered := registered w; started := started w; xQueue := q;
               actions := actions w |}).

Definition read_xQueue : M (option nat) :=
  record load_xQueue ;;
  fun w => (inl (xQueue w), w).

Definition sizeof_uint32_t : Z := 4.

(** ** ipsa_sched *)

Definition ipsa_sched (c : config) : M unit :=
  q <- xQueueCreate mainQUEUE_LENGTH sizeof_uint32_t ;;
  write_xQueue q ;;
  q <- read_xQueue ;;
  match q with
  | Some _ =>
      xTaskCreate code_vPeriodicTask1 "TX1" (configMINIMAL_STACK_SIZE c) (TASK1_PRIORITY c) ;;
      xTaskCreate code_vPeriodicTask2 "TX2" (configMINIMAL_STACK_SIZE c) (TASK2_PRIORITY c) ;;
      xTaskCreate code_vPeriodicTask3 "TX3" (configMINIMAL_STACK_SIZE c) (TASK3_PRIORITY c) ;;
      xTaskCreate code_vPeriodicTask4 "TX4" (configMINIMAL_STACK_SIZE c) (TASK4_PRIORITY c) ;;
      xTaskCreate code_aperiodicTask1 "Aperiodic" (configMINIMAL_STACK_SIZE c)
        (APERIODIC_TASK_PRIORITY c) ;;
      vTaskStartScheduler
  | None => ret tt
  end ;;
  stop idle_loop.

(** The five descriptors in the order of the calls. *)
Definition descriptors (c : config) : list descriptor :=
  [ {| pxTaskCode := code_vPeriodicTask1; pcName := "TX1";
       usStackDepth := configMINIMAL_STACK_SIZE c; uxPriority := TASK1_PRIORITY c |};
    {| pxTaskCode := code_vPeriodicTask2; pcName := "TX2";
       usStackDepth := configMINIMAL_STACK_SIZE c; uxPriority := TASK2_PRIORITY c |};
    {| pxTaskCode := code_vPeriodicTask3; pcName := "TX3";
       usStackDepth := configMINIMAL_STACK_SIZE c; uxPriority := TASK3_PRIORITY c |};
    {| pxTaskCode := code_vPeriodicTask4; pcName := "TX4";
       usStackDepth := configMINIMAL_STACK_SIZE c; uxPriority := TASK4_PRIORITY c |};
    {| pxTaskCode := code_aperiodicTask1; pcName := "Aperiodic";
       usStackDepth := configMINIMAL_STACK_SIZE c; uxPriority := APERIODIC_TASK_PRIORITY c |} ].

(** Projections of the registrar's actions. *)
Definition created_tasks (l : list action) : list descriptor :=
  flat_map (fun a => match a with task_create d _ => [d] | _ => [] end) l.

Definition created_queues (l : list action) : list (Z * Z) :=
  flat_map (fun a => match a with queue_create n s _ => [(n, s)] | _ => [] end) l.

Definition xQueue_stores (l : list action) : nat :=
  List.length (filter (fun a => match a with store_xQueue _ => true | _ => false end) l).

Definition scheduler_starts (l : list action) : nat :=
  List.length (filter (fun a => match a with start_scheduler _ => true | _ => false end) l).

(** The descriptors among [ds] whose allocation request succeeds, the
    first of them being request number [k]. *)
Fixpoint granted (h : nat -> bool) (k : nat) (ds : list descriptor) : list descriptor :=
  match ds with
  | [] => []
  | d :: r => if h k then d :: granted h (S k) r else granted h (S k) r
  end.

(** Startup as all or nothing: when the queue or one of the five tasks
    cannot be created, no task is left with the kernel, the scheduler is
    not started and [ipsa_sched] ends in its idle loop. *)
Definition all_or_nothing (c : config) (h : nat -> bool) : Prop :=
  (exists k, (k < 6)%nat /\ h k = false) ->
  fst (ipsa_sched c (boot h)) = inr idle_loop /\
  registered (snd (ipsa_sched c (boot h))) = [] /\
  started (snd (ipsa_sched c (boot h))) = false.

(** No call of the list touches the queue. *)
Definition queue_untouched (cs : option (list call)) : Prop :=
  exists l, cs = Some l /\ forallb (fun e => negb (is_queue_access e)) l = true.

(** ** Release instants *)

(** Modelled from the spec: [vTaskDelay] is kernel code outside the file;
    the spec has the relative delay sleep for the given ticks starting
    "now", the next release instant being now + period. *)
Definition relative_release (now ticks : Z) : Z := now + ticks.

(** Modelled from the spec: [vTaskDelayUntil] is kernel code outside the
    file; the spec has the absolute delay sleep until last release +
    period. *)
Definition absolute_release (last_release ticks : Z) : Z := last_release + ticks.

(** The instant at which the task is eligible again after an iteration
    released at [released], whose body makes the calls [cs]; [now] is the
    instant reached so far in the iteration. *)
Fixpoint resume (released now : Z) (cs : list call) : Z :=
  match cs with
  | [] => now
  | vTaskDelay d :: r => resume released (relative_release now d) r
  | vTaskDelayUntil d :: r => resume released (absolute_release released d) r
  | _ :: r => resume released now r
  end.

(** The release instants of a task started at instant 0, when the work of
    iteration [k] (its execution and the time it is preempted) takes
    [busy k] ticks. *)
Fixpoint release {L} (t : task L) (busy : nat -> Z) (n : nat) : option Z :=
  match n with
  | O => Some 0
  | S k =>
      match release t busy k, calls_at t k with
      | Some r, Some cs => Some (resume r (r + busy k) cs)
      | _, _ => None
      end
  end.

(** One suspension per iteration, a relative delay of [period] ticks, made
    after everything else the iteration does. *)
Definition suspends_once_at_end {L} (t : task L) (period : Z) : Prop :=
  forall n, exists work,
    calls_at t n = Some (work ++ [vTaskDelay period]) /\
    forallb (fun e => negb (is_suspension e)) work = true.

(** Consecutive releases are at least the period plus the time the earlier
    iteration was busy apart. *)
Definition releases_drift {L} (t : task L) (period : Z) : Prop :=
  forall busy n, exists r r',
    release t busy n = Some r /\ release t busy (S n) = Some r' /\
    r + period + busy n <= r'.

(** ** Further vocabulary for the properties below *)

(** The expression that [vPeriodicTask2] assigns to [celsius]. *)
Definition celsius_of (f : spec_float) : spec_float :=
  f32_div (f32_mul (f32_sub f (f32 32)) (f32 5)) (f32 9).

(** The rational number a finite float stands for. *)
Definition float_value (f : spec_float) : option Q :=
  match f with
  | S754_zero _ => Some (0 # 1)
  | S754_finite s m e =>
      Some (Qmult (inject_Z (cond_Zopp s (Zpos m))) (Qpower (2 # 1) e))
  | _ => None
  end.

(** The exact Celsius value of [F] degrees Fahrenheit. *)
Definition exact_celsius (F : Z) : Q := Qmake ((F - 32) * 5) 9.

(** The float printed for [F] degrees is the exact value rounded once: it
    is off by at most the fraction 2^-24 of the exact value. *)
Definition celsius_rounded (F : Z) : bool :=
  match float_value (celsius_of (f32 F)) with
  | Some q =>
      Qle_bool (Qmult (Qabs (Qminus q (exact_celsius F))) (inject_Z (2 ^ 24)))
               (Qabs (exact_celsius F))
  | None => false
  end.

(** The float that stands for the literal [F] is [F] itself. *)
Definition fahrenheit_exact (F : Z) : bool :=
  match float_value (f32 F) with
  | Some q => Qeq_bool q (inject_Z F)
  | None => false
  end.

(** The integers [lo], [lo + 1], ..., [lo + n - 1]. *)
Definition Z_range (lo : Z) (n : nat) : list Z :=
  map (fun k => lo + Z.of_nat k) (seq 0 n).

(** [vPeriodicTask4] with the array and the target as parameters: the
    source is [search_task c list50 25]. *)
Definition search_task (c : config) (a : list Z) (x : Z) : task task4_locals := {|
  locals0 := search_locals a x;
  body := vPeriodicTask4_body c
|}.

(** What [vPeriodicTask4] prints for a verdict. *)
Definition verdict (present : bool) : call :=
  printf (if present then "Element found\n" else "Element not found\n") [].

(** [x] occurs in [a]. *)
Definition member (x : Z) (a : list Z) : bool := existsb (Z.eqb x) a.

(** [w'] has everything [w] had: the same heap, the queues, tasks and
    actions of [w] with more behind them, at most [n] more allocation
    requests, and a scheduler that was started stays started. *)
Definition extends (n : nat) (w w' : world) : Prop :=
  heap w' = heap w /\
  (requests w <= requests w' <= requests w + n)%nat /\
  (exists qs, queues w' = queues w ++ qs) /\
  (exists ts, registered w' = registered w ++ ts) /\
  (exists acts, actions w' = actions w ++ acts) /\
  (started w = true -> started w' = true).

Definition only_adds {A} (n : nat) (m : M A) : Prop :=
  forall w, extends n w (snd (m w)).

Definition never_returns {A} (m : M A) : Prop :=
  forall w, exists h, fst (m w) = inr h.


(** The reads of [xQueue] among the actions. *)
Definition xQueue_loads (l : list action) : nat :=
  List.length (filter (fun a => match a with load_xQueue => true | _ => false end) l).

(** The size in bytes of a machine word of the target: on the data models of
    the kernel's ports (ILP32, LP64) a word is as wide as [long int]. *)
Definition machine_word_bytes (c : config) : Z := long_bits c / 8.

(** The queue as a reading of the source by its comments would have it:
    items of one machine word, and a handle that is stored once and not
    looked at again. *)
Definition queue_word_sized_never_read (c : config) (h : nat -> bool) : Prop :=
  created_queues (actions (snd (ipsa_sched c (boot h)))) = [(2, machine_word_bytes c)] /\
  xQueue_stores (actions (snd (ipsa_sched c (boot h)))) = 1%nat /\
  xQueue_loads (actions (snd (ipsa_sched c (boot h)))) = 0%nat.

(** * Properties *)

(** ** Integer arithmetic *)

Lemma pow2_double w : 0 < w -> 2 ^ w = 2 * 2 ^ (w - 1).
Proof.
  intros Hw. replace w with (Z.succ (w - 1)) at 1 by lia.
  apply Z.pow_succ_r. lia.
Qed.

Lemma wrap_fits w z : 0 < w -> fits w z = true -> wrap w z = z.
Proof.
  intros Hw H. unfold fits, smin, smax in H. unfold wrap.
  apply andb_true_iff in H. destruct H as [H1 H2].
  apply Z.leb_le in H1. apply Z.leb_le in H2.
  pose proof (pow2_double w Hw) as E.
  rewrite Z.mod_small; lia.
Qed.

Lemma wrap_range w z : 0 < w -> smin w <= wrap w z <= smax w.
Proof.
  intros Hw. unfold wrap, smin, smax.
  pose proof (pow2_double w Hw) as E.
  assert (0 < 2 ^ (w - 1)) by (apply Z.pow_pos_nonneg; lia).
  pose proof (Z.mod_pos_bound (z + 2 ^ (w - 1)) (2 ^ w)). lia.
Qed.

Lemma int_wrap z : INT_MIN <= z <= INT_MAX -> wrap int_bits z = z.
Proof.
  intros H. apply wrap_fits; [reflexivity|].
  unfold fits. apply andb_true_iff. split; apply Z.leb_le; apply H.
Qed.

Lemma int_add_exact a b : INT_MIN <= a + b <= INT_MAX -> int_add a b = a + b.
Proof. apply int_wrap. Qed.

Lemma int_sub_exact a b : INT_MIN <= a - b <= INT_MAX -> int_sub a b = a - b.
Proof. apply int_wrap. Qed.

Lemma int_half_exact a : 0 <= a <= INT_MAX -> int_div a 2 = a / 2.
Proof.
  intros H. unfold int_div. rewrite Z.quot_div_nonneg by lia.
  apply int_wrap. unfold INT_MIN, INT_MAX, smin, smax, int_bits in *. simpl in *.
  assert (0 <= a / 2) by (apply Z.div_pos; lia).
  assert (a / 2 <= a) by (apply Z.div_le_upper_bound; lia).
  lia.
Qed.

(** ** Unit C: the product *)

Lemma task3_locals_after (c : config) (n : nat) :
  locals_at (vPeriodicTask3 c) (S n) =
  Some {| num1 := wrap (long_bits c) 9876543210;
          num2 := wrap (long_bits c) 1234567890;
          result := long_mul (long_bits c) (wrap (long_bits c) 9876543210)
                      (wrap (long_bits c) 1234567890) |}.
Proof.
  induction n as [|n IH].
  - reflexivity.
  - change (locals_at (vPeriodicTask3 c) (S (S n)))
      with (match locals_at (vPeriodicTask3 c) (S n) with
            | Some l => option_map fst (body (vPeriodicTask3 c) l)
            | None => None
            end).
    rewrite IH. reflexivity.
Qed.

Lemma task3_prints (c : config) (n : nat) :
  calls_at (vPeriodicTask3 c) n =
  Some [printf "Result: %ld\n"
          [ALong (long_mul (long_bits c) (wrap (long_bits c) 9876543210)
                    (wrap (long_bits c) 1234567890))];
        vTaskDelay (TASK3_PERIOD_MS c)].
Proof.
  unfold calls_at. destruct n as [|n].
  - reflexivity.
  - rewrite task3_locals_after. reflexivity.
Qed.

(** No [long int] of 64 bits or fewer prints the product. *)
Lemma task3_never_exact (c : config) (n : nat) :
  0 < long_bits c <= 64 ->
  calls_at (vPeriodicTask3 c) n <>
  Some [printf "Result: %ld\n" [ALong (9876543210 * 1234567890)];
        vTaskDelay (TASK3_PERIOD_MS c)].
Proof.
  intros Hw. rewrite task3_prints. intros E.
  injection E as E. unfold long_mul in E.
  pose proof (wrap_range (long_bits c)
                (wrap (long_bits c) 9876543210 * wrap (long_bits c) 1234567890)
                ltac:(lia)) as R.
  rewrite E in R. unfold smax in R.
  assert (2 ^ (long_bits c - 1) <= 2 ^ 63) by (apply Z.pow_le_mono_r; lia).
  change (2 ^ 63) with 9223372036854775808 in *.
  change (9876543210 * 1234567890) with 12193263111263526900 in R. lia.
Qed.

(** C1: on the Linux port (64-bit [long int]) every iteration of
    [vPeriodicTask3] prints -6253480962446024716 and not
    9876543210 * 1234567890 = 12193263111263526900: the product is larger
    than the largest 64-bit signed value and the multiplication wraps. *)
Theorem vPeriodicTask3_product_overflows (n : nat) :
  calls_at (vPeriodicTask3 linux_port) n =
    Some [printf "Result: %ld\n" [ALong (-6253480962446024716)]; vTaskDelay 186] /\
  9876543210 * 1234567890 = 12193263111263526900 /\
  smax (long_bits linux_port) = 9223372036854775807 /\
  smax (long_bits linux_port) < 9876543210 * 1234567890 /\
  task3_mul_fits linux_port (locals0 (vPeriodicTask3 linux_port)) = false.
Proof.
  split; [|repeat split; reflexivity].
  rewrite task3_prints. reflexivity.
Qed.

(** ** Priorities and periods *)

Lemma ubase_add_exact (c : config) (k : Z) :
  priorities_fit c -> 0 <= k <= 5 ->
  ubase_add c (tskIDLE_PRIORITY c) k = tskIDLE_PRIORITY c + k.
Proof.
  intros [H0 H5] Hk. unfold ubase_add. apply Z.mod_small. lia.
Qed.

Ltac exact_priorities H :=
  unfold TASK1_PRIORITY, TASK2_PRIORITY, TASK3_PRIORITY, TASK4_PRIORITY,
    APERIODIC_TASK_PRIORITY;
  rewrite ?(ubase_add_exact _ _ H) by lia.

(** C5: the priorities passed to [xTaskCreate] are strictly increasing in
    the order Task1, Task2, Task3, Task4, Aperiodic, and no two are equal,
    for every kernel configuration in which [tskIDLE_PRIORITY + 5] does not
    wrap in UBaseType_t. *)
Theorem priorities_strictly_increasing (c : config) :
  priorities_fit c ->
  TASK1_PRIORITY c < TASK2_PRIORITY c /\
  TASK2_PRIORITY c < TASK3_PRIORITY c /\
  TASK3_PRIORITY c < TASK4_PRIORITY c /\
  TASK4_PRIORITY c < APERIODIC_TASK_PRIORITY c /\
  NoDup (map uxPriority (descriptors c)).
Proof.
  intros H. unfold descriptors. cbn [map uxPriority].
  exact_priorities H.
  repeat split; try lia.
  repeat constructor; cbn [In]; lia.
Qed.

Lemma priorities_strictly_increasing_witness :
  priorities_fit linux_port /\
  TASK1_PRIORITY linux_port < TASK2_PRIORITY linux_port /\
  TASK2_PRIORITY linux_port < TASK3_PRIORITY linux_port /\
  TASK3_PRIORITY linux_port < TASK4_PRIORITY linux_port /\
  TASK4_PRIORITY linux_port < APERIODIC_TASK_PRIORITY linux_port /\
  NoDup (map uxPriority (descriptors linux_port)).
Proof.
  assert (H : priorities_fit linux_port) by (unfold priorities_fit; simpl; lia).
  split; [exact H | exact (priorities_strictly_increasing linux_port H)].
Defined.

(** C6: with a tick of one millisecond the periods are 166, 170, 186 and
    166 ticks for Task1 to Task4 and the aperiodic delay is 50 ticks; each
    of them is positive. *)
Theorem periods_in_ticks (c : config) :
  portTICK_PERIOD_MS c = 1 ->
  TASK1_PERIOD_MS c = 166 /\
  TASK2_PERIOD_MS c = 170 /\
  TASK3_PERIOD_MS c = 186 /\
  TASK4_PERIOD_MS c = 166 /\
  APERIODIC_TASK_DELAY_MS c = 50 /\
  Forall (fun ticks => 0 < ticks)
    [TASK1_PERIOD_MS c; TASK2_PERIOD_MS c; TASK3_PERIOD_MS c; TASK4_PERIOD_MS c;
     APERIODIC_TASK_DELAY_MS c].
Proof.
  intros H.
  unfold TASK1_PERIOD_MS, TASK2_PERIOD_MS, TASK3_PERIOD_MS, TASK4_PERIOD_MS,
    APERIODIC_TASK_DELAY_MS.
  rewrite H, !Z.div_1_r.
  repeat split. repeat constructor.
Qed.

Lemma periods_in_ticks_witness :
  portTICK_PERIOD_MS linux_port = 1 /\
  TASK1_PERIOD_MS linux_port = 166 /\
  TASK2_PERIOD_MS linux_port = 170 /\
  TASK3_PERIOD_MS linux_port = 186 /\
  TASK4_PERIOD_MS linux_port = 166 /\
  APERIODIC_TASK_DELAY_MS linux_port = 50 /\
  Forall (fun ticks => 0 < ticks)
    [TASK1_PERIOD_MS linux_port; TASK2_PERIOD_MS linux_port; TASK3_PERIOD_MS linux_port;
     TASK4_PERIOD_MS linux_port; APERIODIC_TASK_DELAY_MS linux_port].
Proof.
  split; [reflexivity | exact (periods_in_ticks linux_port eq_refl)].
Defined.

(** The durations stay positive as long as a tick is between 1 and 50
    milliseconds; a longer tick rounds the aperiodic delay down to 0. *)
Lemma periods_positive (c : config) :
  1 <= portTICK_PERIOD_MS c <= 50 ->
  0 < TASK1_PERIOD_MS c /\ 0 < TASK2_PERIOD_MS c /\ 0 < TASK3_PERIOD_MS c /\
  0 < TASK4_PERIOD_MS c /\ 0 < APERIODIC_TASK_DELAY_MS c.
Proof.
  intros H.
  unfold TASK1_PERIOD_MS, TASK2_PERIOD_MS, TASK3_PERIOD_MS, TASK4_PERIOD_MS,
    APERIODIC_TASK_DELAY_MS.
  repeat split; apply Z.div_str_pos; lia.
Qed.

(** ** Iterating a task *)

Lemma locals_at_S {L} (t : task L) (n : nat) :
  locals_at t (S n) =
  match locals_at t n with
  | Some l => option_map fst (body t l)
  | None => None
  end.
Proof. reflexivity. Qed.

(** Locals that the body gives back unchanged stay for ever. *)
Lemma locals_at_steady {L} (t : task L) (l : L) (cs : list call) (k : nat) :
  locals_at t k = Some l ->
  body t l = Some (l, cs) ->
  forall n, locals_at t (k + n) = Some l.
Proof.
  intros Hk Hb n. induction n as [|n IH].
  - rewrite Nat.add_0_r. exact Hk.
  - rewrite Nat.add_succ_r, locals_at_S, IH, Hb. reflexivity.
Qed.

Lemma calls_at_steady {L} (t : task L) (l : L) (cs : list call) (k : nat) :
  locals_at t k = Some l ->
  body t l = Some (l, cs) ->
  forall n, calls_at t (k + n) = Some cs.
Proof.
  intros Hk Hb n. unfold calls_at.
  rewrite (locals_at_steady t l cs k Hk Hb n), Hb. reflexivity.
Qed.

Lemma task1_calls (c : config) (n : nat) :
  calls_at (vPeriodicTask1 c) n = Some [printf "Working 1\n" []; vTaskDelay (TASK1_PERIOD_MS c)].
Proof.
  exact (calls_at_steady (vPeriodicTask1 c) tt _ 0 eq_refl eq_refl n).
Qed.

Lemma task2_locals_at (c : config) (n : nat) :
  locals_at (vPeriodicTask2 c) n = Some {| fahrenheit := f32 100 |}.
Proof.
  exact (locals_at_steady (vPeriodicTask2 c) _ _ 0 eq_refl eq_refl n).
Qed.

Lemma task2_calls (c : config) (n : nat) :
  exists celsius,
    calls_at (vPeriodicTask2 c) n =
    Some [printf "Fahrenheit: %f, Celsius: %f\n" [ADouble (f32 100); ADouble celsius];
          vTaskDelay (TASK2_PERIOD_MS c)].
Proof.
  eexists. exact (calls_at_steady (vPeriodicTask2 c) _ _ 0 eq_refl eq_refl n).
Qed.

Lemma aperiodic_calls (c : config) (n : nat) :
  calls_at (aperiodicTask1 c) n =
  Some [vTaskDelay (APERIODIC_TASK_DELAY_MS c); printf "Aperiodic task 1 finished\n" []].
Proof.
  exact (calls_at_steady (aperiodicTask1 c) tt _ 0 eq_refl eq_refl n).
Qed.

Lemma task4_locals_after (c : config) (n : nat) :
  locals_at (vPeriodicTask4 c) (S n) = Some task4_steady.
Proof.
  exact (locals_at_steady (vPeriodicTask4 c) task4_steady _ 1 eq_refl eq_refl n).
Qed.

Lemma task4_calls (c : config) (n : nat) :
  calls_at (vPeriodicTask4 c) n =
  Some [printf "Element found\n" []; vTaskDelay (TASK4_PERIOD_MS c)].
Proof.
  destruct n as [|n].
  - reflexivity.
  - exact (calls_at_steady (vPeriodicTask4 c) task4_steady _ 1 eq_refl eq_refl n).
Qed.

(** ** The release cycle of the periodic tasks *)

Lemma resume_work (released now : Z) (work rest : list call) :
  forallb (fun e => negb (is_suspension e)) work = true ->
  resume released now (work ++ rest) = resume released now rest.
Proof.
  induction work as [|e work IH]; intros H.
  - reflexivity.
  - cbn [forallb] in H. apply andb_true_iff in H. destruct H as [He Hw].
    destruct e; try discriminate He; cbn [app resume]; exact (IH Hw).
Qed.

Lemma release_defined {L} (t : task L) (period : Z) (busy : nat -> Z) :
  suspends_once_at_end t period ->
  forall n, exists r, release t busy n = Some r.
Proof.
  intros H n. induction n as [|n [r IH]].
  - exists 0. reflexivity.
  - destruct (H n) as [work [Hc _]].
    cbn [release]. rewrite IH, Hc. eexists. reflexivity.
Qed.

Lemma relative_delay_drifts {L} (t : task L) (period : Z) :
  suspends_once_at_end t period -> releases_drift t period.
Proof.
  intros H busy n.
  destruct (release_defined t period busy H n) as [r Hr].
  destruct (H n) as [work [Hc Hw]].
  exists r, (r + busy n + period). repeat split.
  - exact Hr.
  - cbn [release]. rewrite Hr, Hc, (resume_work _ _ _ _ Hw).
    reflexivity.
  - lia.
Qed.

Lemma task1_suspends (c : config) :
  suspends_once_at_end (vPeriodicTask1 c) (TASK1_PERIOD_MS c).
Proof.
  intros n. exists [printf "Working 1\n" []]. split; [apply task1_calls | reflexivity].
Qed.

Lemma task2_suspends (c : config) :
  suspends_once_at_end (vPeriodicTask2 c) (TASK2_PERIOD_MS c).
Proof.
  intros n. destruct (task2_calls c n) as [celsius H].
  exists [printf "Fahrenheit: %f, Celsius: %f\n" [ADouble (f32 100); ADouble celsius]].
  split; [exact H | reflexivity].
Qed.

Lemma task3_suspends (c : config) :
  suspends_once_at_end (vPeriodicTask3 c) (TASK3_PERIOD_MS c).
Proof.
  intros n. eexists [_]. split; [apply task3_prints | reflexivity].
Qed.

Lemma task4_suspends (c : config) :
  suspends_once_at_end (vPeriodicTask4 c) (TASK4_PERIOD_MS c).
Proof.
  intros n. exists [printf "Element found\n" []]. split; [apply task4_calls | reflexivity].
Qed.

(** C7: every iteration of each of the four periodic tasks makes exactly
    one suspending call, the last call of the iteration, and it is the
    relative delay [vTaskDelay] of the task's own period; with the relative
    delay releasing the task [period] ticks after the call, two consecutive
    releases are at least the period plus the time the earlier iteration was
    busy apart. *)
Theorem periodic_wrappers_delay_relative (c : config) :
  (suspends_once_at_end (vPeriodicTask1 c) (TASK1_PERIOD_MS c) /\
   suspends_once_at_end (vPeriodicTask2 c) (TASK2_PERIOD_MS c) /\
   suspends_once_at_end (vPeriodicTask3 c) (TASK3_PERIOD_MS c) /\
   suspends_once_at_end (vPeriodicTask4 c) (TASK4_PERIOD_MS c)) /\
  (releases_drift (vPeriodicTask1 c) (TASK1_PERIOD_MS c) /\
   releases_drift (vPeriodicTask2 c) (TASK2_PERIOD_MS c) /\
   releases_drift (vPeriodicTask3 c) (TASK3_PERIOD_MS c) /\
   releases_drift (vPeriodicTask4 c) (TASK4_PERIOD_MS c)).
Proof.
  pose proof (task1_suspends c) as H1.
  pose proof (task2_suspends c) as H2.
  pose proof (task3_suspends c) as H3.
  pose proof (task4_suspends c) as H4.
  split; [tauto|].
  repeat split; apply relative_delay_drifts; assumption.
Qed.

(** ** Locals across iterations *)

(** The found flag of [vPeriodicTask4] is 0 when the loop is entered and 1
    at the top of the second iteration: the locals are not all the same. *)
Lemma task4_found_flag_changes :
  option_map found (locals_at (vPeriodicTask4 linux_port) 0) = Some 0 /\
  option_map found (locals_at (vPeriodicTask4 linux_port) 1) = Some 1 /\
  ~ locals_immutable (vPeriodicTask4 linux_port).
Proof.
  split; [reflexivity|]. split; [reflexivity|].
  intros H. specialize (H 1%nat). discriminate H.
Qed.

(** C4 (amended): the data of the workloads is the same at the top of every
    iteration: Task1 has no locals, the Fahrenheit value of Task2, the
    multiplicands of Task3 and the array, the target and the bounds low and
    high of Task4 are as they were when the loop was entered.  The found
    flag and [mid] of Task4 are not: they are 0 and unset at the top of the
    first iteration, 1 and 24 at the top of every later one. *)
Theorem workload_data_immutable (c : config) (n : nat) :
  locals_immutable (vPeriodicTask1 c) /\
  locals_immutable (vPeriodicTask2 c) /\
  (exists l, locals_at (vPeriodicTask3 c) n = Some l /\
     num1 l = num1 (locals0 (vPeriodicTask3 c)) /\
     num2 l = num2 (locals0 (vPeriodicTask3 c))) /\
  (exists l, locals_at (vPeriodicTask4 c) n = Some l /\
     list_ l = list50 /\ element_to_find l = 25 /\ low l = 0 /\ high l = 49 /\
     found l = (if Nat.eqb n 0 then 0 else 1) /\
     mid l = (if Nat.eqb n 0 then None else Some 24)).
Proof.
  split; [|split; [|split]].
  - intros k. exact (locals_at_steady (vPeriodicTask1 c) tt _ 0 eq_refl eq_refl k).
  - intros k. apply task2_locals_at.
  - destruct n as [|n].
    + eexists. split; [reflexivity|]. split; reflexivity.
    + eexists. split; [apply task3_locals_after|]. split; reflexivity.
  - destruct n as [|n].
    + eexists. split; [reflexivity|]. repeat split.
    + eexists. split; [apply task4_locals_after|]. repeat split.
Qed.

(** ** Unit D: one probe *)

(** While [0 <= low <= high < 2^30] nothing in a probe wraps. *)
Lemma midpoint_exact (s : task4_locals) :
  0 <= low s -> low s <= high s -> high s <= 1073741823 ->
  midpoint s = (low s + high s) / 2 /\
  low s <= (low s + high s) / 2 <= high s /\
  int_ok (low s + high s) = true.
Proof.
  intros H0 Hle Hhi.
  assert (R : INT_MIN <= low s + high s <= INT_MAX).
  { unfold INT_MIN, INT_MAX, smin, smax, int_bits. simpl. lia. }
  unfold midpoint. rewrite (int_add_exact _ _ R).
  rewrite int_half_exact by lia.
  split; [reflexivity|]. split.
  - split.
    + apply Z.div_le_lower_bound; lia.
    + apply Z.div_le_upper_bound; lia.
  - unfold int_ok, fits. apply andb_true_iff.
    split; apply Z.leb_le; apply R.
Qed.

Lemma index_Some (a : list Z) (i v : Z) :
  index a i = Some v ->
  0 <= i < Z.of_nat (List.length a) /\ nth_error a (Z.to_nat i) = Some v.
Proof.
  unfold index. intros H.
  destruct ((0 <=? i) && (i <? Z.of_nat (List.length a))) eqn:E; [|discriminate].
  apply andb_true_iff in E. destruct E as [E1 E2].
  apply Z.leb_le in E1. apply Z.ltb_lt in E2. split; [lia | exact H].
Qed.

Lemma index_defined (a : list Z) (i : Z) :
  0 <= i < Z.of_nat (List.length a) -> exists v, index a i = Some v.
Proof.
  intros H. unfold index.
  replace ((0 <=? i) && (i <? Z.of_nat (List.length a))) with true.
  - destruct (nth_error a (Z.to_nat i)) as [v|] eqn:E.
    + exists v. reflexivity.
    + apply nth_error_None in E. lia.
  - symmetry. apply andb_true_iff. split; [apply Z.leb_le | apply Z.ltb_lt]; lia.
Qed.

Lemma loop_step_Exit (s : task4_locals) :
  loop_step s = Exit -> high s < low s.
Proof.
  unfold loop_step. destruct (low s <=? high s) eqn:E.
  - destruct (index (list_ s) (midpoint s)) as [v|]; [|discriminate].
    destruct (v =? element_to_find s); [discriminate|].
    destruct (v <? element_to_find s); discriminate.
  - intros _. apply Z.leb_gt in E. lia.
Qed.

Lemma loop_step_Break (s s' : task4_locals) :
  loop_step s = Break s' ->
  low s <= high s /\
  index (list_ s) (midpoint s) = Some (element_to_find s) /\
  s' = {| list_ := list_ s; element_to_find := element_to_find s;
          low := low s; high := high s; mid := Some (midpoint s); found := 1 |}.
Proof.
  unfold loop_step. destruct (low s <=? high s) eqn:E; [|discriminate].
  apply Z.leb_le in E.
  destruct (index (list_ s) (midpoint s)) as [v|]; [|discriminate].
  destruct (v =? element_to_find s) eqn:Ev.
  - apply Z.eqb_eq in Ev. subst v. intros H. injection H as H. auto.
  - destruct (v <? element_to_find s); discriminate.
Qed.

Lemma loop_step_Fault (s : task4_locals) :
  loop_step s = Fault -> low s <= high s /\ index (list_ s) (midpoint s) = None.
Proof.
  unfold loop_step. destruct (low s <=? high s) eqn:E; [|discriminate].
  apply Z.leb_le in E.
  destruct (index (list_ s) (midpoint s)) as [v|]; [|auto].
  destruct (v =? element_to_find s); [discriminate|].
  destruct (v <? element_to_find s); discriminate.
Qed.

(** A probe that moves a bound: which bound, and where to. *)
Lemma loop_step_Continue (s s' : task4_locals) :
  0 <= low s -> high s <= 1073741823 ->
  loop_step s = Continue s' ->
  let m := (low s + high s) / 2 in
  low s <= m <= high s /\
  list_ s' = list_ s /\ element_to_find s' = element_to_find s /\
  found s' = found s /\ mid s' = Some m /\
  exists v, index (list_ s) m = Some v /\
    ((v < element_to_find s /\ low s' = m + 1 /\ high s' = high s) \/
     (element_to_find s < v /\ low s' = low s /\ high s' = m - 1)).
Proof.
  intros H0 Hhi. unfold loop_step.
  destruct (low s <=? high s) eqn:E; [|discriminate].
  apply Z.leb_le in E.
  destruct (midpoint_exact s H0 E Hhi) as [Hm [Hr _]]. rewrite Hm.
  destruct (index (list_ s) ((low s + high s) / 2)) as [v|] eqn:Ei; [|discriminate].
  destruct (v =? element_to_find s) eqn:Ev; [discriminate|].
  apply Z.eqb_neq in Ev.
  destruct (v <? element_to_find s) eqn:El; intros H; injection H as H; subst s'; cbn.
  - apply Z.ltb_lt in El. repeat split; try lia.
    exists v. split; [reflexivity|]. left. repeat split; try lia.
    apply int_add_exact. unfold INT_MIN, INT_MAX, smin, smax, int_bits. simpl. lia.
  - apply Z.ltb_ge in El. repeat split; try lia.
    exists v. split; [reflexivity|]. right. repeat split; try lia.
    apply int_sub_exact. unfold INT_MIN, INT_MAX, smin, smax, int_bits. simpl. lia.
Qed.

(** Moving a bound strictly narrows [low .. high] from inside. *)
Lemma loop_step_narrows (s s' : task4_locals) :
  0 <= low s -> high s <= 1073741823 ->
  loop_step s = Continue s' ->
  low s <= low s' /\ high s' <= high s /\ high s' - low s' < high s - low s.
Proof.
  intros H0 Hhi H.
  destruct (loop_step_Continue s s' H0 Hhi H) as (Hm & _ & _ & _ & _ & v & _ & Hc).
  destruct Hc as [(_ & Hl & Hh) | (_ & Hl & Hh)]; rewrite Hl, Hh; lia.
Qed.

(** Moving a bound leaves at most half of the candidates. *)
Lemma loop_step_halves (s s' : task4_locals) :
  0 <= low s -> high s <= 1073741823 ->
  loop_step s = Continue s' ->
  high s' - low s' + 1 <= (high s - low s + 1) / 2.
Proof.
  intros H0 Hhi H.
  destruct (loop_step_Continue s s' H0 Hhi H) as (Hm & _ & _ & _ & _ & v & _ & Hc).
  apply Z.div_le_lower_bound; [lia|].
  pose proof (Z.div_mod (low s + high s) 2 ltac:(lia)) as D.
  pose proof (Z.mod_pos_bound (low s + high s) 2 ltac:(lia)) as B.
  destruct Hc as [(_ & Hl & Hh) | (_ & Hl & Hh)]; rewrite Hl, Hh; lia.
Qed.

(** ** Unit D: the probes of a search *)

Lemma loop_step_empty (s : task4_locals) : high s < low s -> loop_step s = Exit.
Proof.
  intros H. unfold loop_step.
  destruct (low s <=? high s) eqn:E; [|reflexivity].
  apply Z.leb_le in E. lia.
Qed.

(** Fewer than [2^k] candidates are settled by [k] probes. *)
Lemma probes_log_bound (k : nat) :
  forall (fuel : nat) (s : task4_locals),
    0 <= low s -> high s <= 1073741823 ->
    high s - low s + 1 < 2 ^ Z.of_nat k ->
    (List.length (probes fuel s) <= k)%nat.
Proof.
  induction k as [|k IH]; intros fuel s H0 Hhi Hr.
  - change (2 ^ Z.of_nat 0) with 1 in Hr.
    destruct fuel; cbn [probes]; rewrite loop_step_empty by lia; apply Nat.le_refl.
  - assert (Hstep : forall f s',
               loop_step s = Continue s' -> (List.length (probes f s') <= k)%nat).
    { intros f s' E.
      destruct (loop_step_narrows s s' H0 Hhi E) as (Hl & Hh & _).
      pose proof (loop_step_halves s s' H0 Hhi E) as Hhalf.
      apply IH; try lia.
      rewrite Nat2Z.inj_succ, Z.pow_succ_r in Hr by lia.
      assert ((high s - low s + 1) / 2 < 2 ^ Z.of_nat k)
        by (apply Z.div_lt_upper_bound; lia).
      lia. }
    destruct fuel as [|fuel]; cbn [probes];
      destruct (loop_step s) as [|b|s'|] eqn:E; cbn [List.length]; try lia.
    specialize (Hstep fuel s' eq_refl). lia.
Qed.

(** A search of the fifty-element array probes at most six times, whatever
    the target. *)
Lemma list50_probe_bound (x : Z) (fuel : nat) :
  (List.length (probes fuel (search_locals list50 x)) <= 6)%nat.
Proof.
  apply probes_log_bound; cbn; lia.
Qed.

(** C3: in every iteration of [vPeriodicTask4] the search ends with the
    found flag set and "Element found" is printed, after at most
    ceil(log2 50) + 1 probes; and a probe that does not end the loop moves
    one bound inwards, so that [low .. high] gets strictly narrower. *)
Theorem task4_finds_every_iteration (c : config) (n : nat) :
  (exists s s',
     locals_at (vPeriodicTask4 c) n = Some s /\
     search s = Done s' /\ found s' = 1 /\
     calls_at (vPeriodicTask4 c) n =
       Some [printf "Element found\n" []; vTaskDelay (TASK4_PERIOD_MS c)] /\
     Z.of_nat (List.length (probes (candidates s) s)) <= Z.log2_up 50 + 1) /\
  (forall p p',
     0 <= low p -> high p <= 49 -> loop_step p = Continue p' ->
     low p <= low p' /\ high p' <= high p /\ high p' - low p' < high p - low p).
Proof.
  split.
  - destruct n as [|n].
    + exists (locals0 (vPeriodicTask4 c)), task4_steady.
      split; [reflexivity|]. split; [reflexivity|]. split; [reflexivity|].
      split; [apply task4_calls|]. vm_compute. discriminate.
    + exists task4_steady, task4_steady.
      split; [apply task4_locals_after|]. split; [reflexivity|]. split; [reflexivity|].
      split; [apply task4_calls|]. vm_compute. discriminate.
  - intros p p' H0 Hhi H. apply loop_step_narrows; [lia | lia | exact H].
Qed.

Lemma task4_finds_every_iteration_witness :
  let p := search_locals list50 30 in
  let p' := {| list_ := list50; element_to_find := 30;
               low := 25; high := 49; mid := Some 24; found := 0 |} in
  low p <= low p' /\ high p' <= high p /\ high p' - low p' < high p - low p.
Proof.
  intros p p'.
  apply (proj2 (task4_finds_every_iteration linux_port 1)).
  - vm_compute. discriminate.
  - vm_compute. discriminate.
  - reflexivity.
Defined.

(** C10: every probe that [vPeriodicTask4] makes, in every iteration, has
    [0 <= low <= mid <= high <= 49], computes [low + high] inside [int] and
    reads [list[mid]] inside the array; and the loop keeps it so: from any
    bounds with [0 <= low <= high <= 49] the probe is in bounds and a moved
    bound leaves [0 <= low] and [high <= 49]. *)
Theorem task4_probes_in_bounds (c : config) (n : nat) :
  (exists s,
     locals_at (vPeriodicTask4 c) n = Some s /\
     (exists s', search s = Done s') /\
     Forall probe_in_bounds (probes (candidates s) s)) /\
  (forall p,
     List.length (list_ p) = 50%nat ->
     0 <= low p -> low p <= high p -> high p <= 49 ->
     probe_in_bounds p /\
     forall p', loop_step p = Continue p' ->
       List.length (list_ p') = 50%nat /\ 0 <= low p' /\ high p' <= 49).
Proof.
  assert (G : forall p,
             List.length (list_ p) = 50%nat ->
             0 <= low p -> low p <= high p -> high p <= 49 ->
             probe_in_bounds p /\
             forall p', loop_step p = Continue p' ->
               List.length (list_ p') = 50%nat /\ 0 <= low p' /\ high p' <= 49).
  { intros p Hlen H0 Hle Hhi.
    destruct (midpoint_exact p H0 Hle ltac:(lia)) as (Hm & Hr & Hok).
    split.
    - unfold probe_in_bounds. rewrite Hm. repeat split; try lia; try exact Hok.
      destruct (index_defined (list_ p) ((low p + high p) / 2)) as [v Hv].
      + rewrite Hlen. lia.
      + rewrite Hv. discriminate.
    - intros p' E.
      destruct (loop_step_Continue p p' H0 ltac:(lia) E)
        as (_ & Hl & _ & _ & _ & v & _ & Hc).
      rewrite Hl. split; [exact Hlen|].
      destruct Hc as [(_ & Hlo & Hh) | (_ & Hlo & Hh)]; rewrite Hlo, Hh; lia. }
  split; [|exact G].
  destruct n as [|n].
  - exists (locals0 (vPeriodicTask4 c)).
    split; [reflexivity|]. split; [exists task4_steady; reflexivity|].
    constructor; [|constructor].
    apply G; cbn; try reflexivity; lia.
  - exists task4_steady.
    split; [apply task4_locals_after|]. split; [exists task4_steady; reflexivity|].
    constructor; [|constructor].
    apply G; cbn; try reflexivity; lia.
Qed.

Lemma task4_probes_in_bounds_witness :
  let p := search_locals list50 30 in
  let p' := {| list_ := list50; element_to_find := 30;
               low := 25; high := 49; mid := Some 24; found := 0 |} in
  probe_in_bounds p /\
  (List.length (list_ p') = 50%nat /\ 0 <= low p' /\ high p' <= 49).
Proof.
  intros p p'.
  assert (H : probe_in_bounds p /\
              forall q, loop_step p = Continue q ->
                List.length (list_ q) = 50%nat /\ 0 <= low q /\ high q <= 49).
  { apply (proj2 (task4_probes_in_bounds linux_port 1)).
    - reflexivity.
    - vm_compute. discriminate.
    - vm_compute. discriminate.
    - vm_compute. discriminate. }
  split; [exact (proj1 H) | exact (proj2 H p' eq_refl)].
Defined.

(** ** Unit D over any sorted array *)

Lemma sorted_nth_error (a : list Z) :
  StronglySorted Z.le a ->
  forall i j vi vj,
    (i <= j)%nat -> nth_error a i = Some vi -> nth_error a j = Some vj -> vi <= vj.
Proof.
  induction 1 as [|v a Hs IH Hall]; intros i j vi vj Hij Hi Hj.
  - destruct i; discriminate Hi.
  - destruct i as [|i], j as [|j]; cbn in Hi, Hj.
    + injection Hi as <-. injection Hj as <-. lia.
    + injection Hi as <-. apply nth_error_In in Hj.
      rewrite Forall_forall in Hall. exact (Hall vj Hj).
    + lia.
    + apply (IH i j); [lia | exact Hi | exact Hj].
Qed.

Lemma sorted_index (a : list Z) :
  Sorted Z.le a ->
  forall i j vi vj, i <= j -> index a i = Some vi -> index a j = Some vj -> vi <= vj.
Proof.
  intros Hs i j vi vj Hij Hi Hj.
  apply Sorted_StronglySorted in Hs; [|exact Z.le_trans].
  destruct (index_Some a i vi Hi) as [Ri Ni].
  destruct (index_Some a j vj Hj) as [Rj Nj].
  apply (sorted_nth_error a Hs (Z.to_nat i) (Z.to_nat j)); [lia | exact Ni | exact Nj].
Qed.

Lemma index_In (a : list Z) (i v : Z) : index a i = Some v -> In v a.
Proof.
  intros H. destruct (index_Some a i v H) as [_ N]. exact (nth_error_In a _ N).
Qed.

Lemma In_index (a : list Z) (v : Z) :
  In v a -> exists i, 0 <= i < Z.of_nat (List.length a) /\ index a i = Some v.
Proof.
  intros H. destruct (In_nth_error a v H) as [n Hn].
  assert (n < List.length a)%nat by (apply nth_error_Some; rewrite Hn; discriminate).
  exists (Z.of_nat n). split; [lia|].
  unfold index.
  replace ((0 <=? Z.of_nat n) && (Z.of_nat n <? Z.of_nat (List.length a))) with true.
  - rewrite Nat2Z.id. exact Hn.
  - symmetry. apply andb_true_iff. split; [apply Z.leb_le | apply Z.ltb_lt]; lia.
Qed.

(** The loop, from any bounds inside a sorted array of at most 2^30
    elements that still enclose every place of the target: it returns, and
    it returns the right answer. *)
Lemma while_loop_decides (fuel : nat) :
  forall s,
    Sorted Z.le (list_ s) ->
    Z.of_nat (List.length (list_ s)) <= 2 ^ 30 ->
    0 <= low s -> high s < Z.of_nat (List.length (list_ s)) ->
    high s - low s + 1 <= Z.of_nat fuel ->
    found s = 0 ->
    (forall i, index (list_ s) i = Some (element_to_find s) -> low s <= i <= high s) ->
    exists s',
      while_loop fuel s = Done s' /\
      list_ s' = list_ s /\ element_to_find s' = element_to_find s /\
      ((found s' = 1 /\ In (element_to_find s) (list_ s)) \/
       (found s' = 0 /\ high s' < low s' /\ ~ In (element_to_find s) (list_ s))).
Proof.
  change (2 ^ 30) with 1073741824.
  induction fuel as [|fuel IH]; intros s Hs Hlen H0 Hhi Hfuel Hf Hin.
  - assert (E : loop_step s = Exit) by (apply loop_step_empty; lia).
    exists s. cbn [while_loop]. rewrite E. repeat split.
    right. split; [exact Hf|]. split; [lia|].
    intros HI. destruct (In_index _ _ HI) as [i [_ Hi]]. specialize (Hin i Hi). lia.
  - cbn [while_loop]. destruct (loop_step s) as [|b|s'|] eqn:E.
    + exists s. repeat split. right. split; [exact Hf|].
      apply loop_step_Exit in E. split; [lia|].
      intros HI. destruct (In_index _ _ HI) as [i [_ Hi]]. specialize (Hin i Hi). lia.
    + destruct (loop_step_Break s b E) as (_ & Hi & ->).
      eexists. split; [reflexivity|]. cbn. repeat split.
      left. split; [reflexivity|]. exact (index_In _ _ _ Hi).
    + destruct (loop_step_Continue s s' H0 ltac:(lia) E)
        as (Hm & Hl & Hx & Hfd & _ & v & Hv & Hc).
      destruct (IH s') as (s'' & Hw & Hl' & Hx' & Hres).
      * rewrite Hl. exact Hs.
      * rewrite Hl. exact Hlen.
      * destruct Hc as [(_ & Hlo & Hh) | (_ & Hlo & Hh)]; rewrite Hlo; lia.
      * rewrite Hl. destruct Hc as [(_ & Hlo & Hh) | (_ & Hlo & Hh)]; rewrite Hh; lia.
      * destruct Hc as [(_ & Hlo & Hh) | (_ & Hlo & Hh)]; rewrite Hlo, Hh; lia.
      * rewrite Hfd. exact Hf.
      * rewrite Hl, Hx. intros i Hi. specialize (Hin i Hi).
        destruct Hc as [(Hlt & Hlo & Hh) | (Hlt & Hlo & Hh)]; rewrite Hlo, Hh.
        -- destruct (Z_le_gt_dec i ((low s + high s) / 2)) as [Hle|Hgt]; [|lia].
           pose proof (sorted_index _ Hs _ _ _ _ Hle Hi Hv). lia.
        -- destruct (Z_le_gt_dec ((low s + high s) / 2) i) as [Hle|Hgt]; [|lia].
           pose proof (sorted_index _ Hs _ _ _ _ Hle Hv Hi). lia.
      * exists s''. split; [exact Hw|]. rewrite Hl, Hx in Hres.
        rewrite Hl', Hx', Hl, Hx. repeat split. exact Hres.
    + exfalso. destruct (loop_step_Fault s E) as [Hle Hi].
      destruct (midpoint_exact s H0 Hle ltac:(lia)) as (Hm & Hr & _).
      destruct (index_defined (list_ s) (midpoint s)) as [v Hv]; [rewrite Hm; lia|].
      rewrite Hv in Hi. discriminate.
Qed.

(** C8 (amended): over every sorted array of at most 2^30 elements and for
    every target, the search of [vPeriodicTask4] started at [low = 0],
    [high = length - 1] returns; it returns with the found flag set if and
    only if the target is in the array, and with [low > high] and the flag
    clear when the target is absent. *)
Theorem search_decides_sorted (a : list Z) (x : Z) :
  Sorted Z.le a ->
  Z.of_nat (List.length a) <= 2 ^ 30 ->
  search_decides a x.
Proof.
  intros Hs Hlen. unfold search_decides, search.
  assert (Hh : high (search_locals a x) = Z.of_nat (List.length a) - 1).
  { cbn. apply int_sub_exact.
    change (2 ^ 30) with 1073741824 in Hlen.
    unfold INT_MIN, INT_MAX, smin, smax, int_bits. simpl. lia. }
  destruct (while_loop_decides (candidates (search_locals a x)) (search_locals a x))
    as (s' & Hw & _ & _ & Hres).
  - exact Hs.
  - exact Hlen.
  - cbn. lia.
  - rewrite Hh. cbn. lia.
  - unfold candidates. rewrite Hh. cbn [low search_locals]. lia.
  - reflexivity.
  - intros i Hi. rewrite Hh. cbn [low list_ search_locals] in *.
    destruct (index_Some _ _ _ Hi) as [R _]. lia.
  - exists s'. split; [exact Hw|]. cbn [element_to_find list_ search_locals] in Hres.
    destruct Hres as [(Hf & HI) | (Hf & Hlt & HI)].
    + split; [split; [intros _; exact HI | intros _; lia]|]. intros N. contradiction.
    + split; [split; [intros N; contradiction | intros N; contradiction]|].
      intros _. split; [exact Hf | exact Hlt].
Qed.

(** The locals with which the source enters its loop are those of a search
    over its array for 25. *)
Lemma task4_locals0 (c : config) :
  locals0 (vPeriodicTask4 c) = search_locals list50 25.
Proof. reflexivity. Qed.

Lemma list50_sorted : Sorted Z.le list50.
Proof.
  unfold list50.
  repeat first [apply Sorted_nil | apply Sorted_cons | apply HdRel_nil | apply HdRel_cons];
    lia.
Qed.

Lemma search_decides_sorted_witness :
  Sorted Z.le list50 /\ Z.of_nat (List.length list50) <= 2 ^ 30 /\ search_decides list50 25.
Proof.
  assert (H : Z.of_nat (List.length list50) <= 2 ^ 30) by (vm_compute; discriminate).
  split; [exact list50_sorted|]. split; [exact H|].
  exact (search_decides_sorted list50 25 list50_sorted H).
Defined.

(** ** Unit D over an array of more than 2^30 elements *)

Lemma index_repeat (v : Z) (n : nat) (i : Z) :
  0 <= i < Z.of_nat n -> index (repeat v n) i = Some v.
Proof.
  intros H. unfold index. rewrite repeat_length.
  replace ((0 <=? i) && (i <? Z.of_nat n)) with true.
  - apply nth_error_repeat. lia.
  - symmetry. apply andb_true_iff. split; [apply Z.leb_le | apply Z.ltb_lt]; lia.
Qed.

Lemma index_negative (a : list Z) (i : Z) : i < 0 -> index a i = None.
Proof.
  intros H. unfold index.
  destruct (0 <=? i) eqn:E; [|reflexivity].
  apply Z.leb_le in E. lia.
Qed.

Lemma repeat_sorted (n : nat) : Sorted Z.le (repeat 0 n).
Proof.
  induction n as [|n IH].
  - constructor.
  - cbn [repeat]. constructor; [exact IH|].
    destruct n; cbn [repeat]; constructor. lia.
Qed.

(** Over [n = 2^31 - 1] zeros and for the target 1, the first probe is at
    index 1073741823 and moves [low] to 1073741824; in the second probe
    [low + high] = 3221225470 wraps to -1073741826 and [list[-536870913]]
    is read. *)
Lemma search_large_array (n : nat) :
  Z.of_nat n = 2147483647 ->
  search (search_locals (repeat 0 n) 1) = Undefined.
Proof.
  intros Hn. unfold search.
  assert (Hh : int_sub (Z.of_nat (List.length (repeat 0 n))) 1 = 2147483646).
  { rewrite repeat_length, Hn. reflexivity. }
  assert (Hc : candidates (search_locals (repeat 0 n) 1) = n).
  { unfold candidates, search_locals. cbn [high low]. rewrite Hh.
    change (2147483646 - 0 + 1) with 2147483647. rewrite <- Hn. apply Nat2Z.id. }
  rewrite Hc. unfold search_locals. rewrite Hh.
  destruct n as [|k]; [discriminate Hn|].
  remember (repeat 0 (S k)) as a eqn:Ea.
  assert (I1 : index a 1073741823 = Some 0) by (subst a; apply index_repeat; lia).
  assert (I2 : index a (-536870913) = None) by (apply index_negative; lia).
  cbn [while_loop]. unfold loop_step at 1. cbn [low high list_ element_to_find found].
  change (0 <=? 2147483646) with true. cbv iota.
  change (midpoint {| list_ := a; element_to_find := 1; low := 0; high := 2147483646;
                      mid := None; found := 0 |}) with 1073741823.
  rewrite I1. cbv iota.
  change (0 =? 1) with false. change (0 <? 1) with true. cbv iota.
  change (int_add 1073741823 1) with 1073741824.
  destruct k as [|k]; [discriminate Hn|].
  cbn [while_loop]. unfold loop_step. cbn [low high list_ element_to_find found].
  change (1073741824 <=? 2147483646) with true. cbv iota.
  change (midpoint {| list_ := a; element_to_find := 1; low := 1073741824;
                      high := 2147483646; mid := Some 1073741823; found := 0 |})
    with (-536870913).
  rewrite I2. reflexivity.
Qed.

(** The search does not decide membership over every sorted array: over
    2^31 - 1 zeros it leaves the array when asked for 1. *)
Lemma search_overflows_on_large_array :
  Sorted Z.le (repeat 0 (Z.to_nat 2147483647)) /\
  ~ In 1 (repeat 0 (Z.to_nat 2147483647)) /\
  search (search_locals (repeat 0 (Z.to_nat 2147483647)) 1) = Undefined /\
  ~ search_decides (repeat 0 (Z.to_nat 2147483647)) 1.
Proof.
  assert (U : search (search_locals (repeat 0 (Z.to_nat 2147483647)) 1) = Undefined).
  { apply search_large_array. apply Z2Nat.id. lia. }
  split; [apply repeat_sorted|]. split.
  - intros H. apply repeat_spec in H. discriminate H.
  - split; [exact U|].
    intros (s' & Hs & _). rewrite U in Hs. discriminate Hs.
Qed.

(** ** The registrar *)

Ltac run_registrar :=
  cbv -[TASK1_PRIORITY TASK2_PRIORITY TASK3_PRIORITY TASK4_PRIORITY APERIODIC_TASK_PRIORITY
        configMINIMAL_STACK_SIZE];
  repeat match goal with
         | E : ?h ?k = _ |- context [?h ?k] => rewrite E; cbv iota
         end.

Lemma ipsa_sched_without_queue (c : config) (h : nat -> bool) :
  h 0%nat = false ->
  ipsa_sched c (boot h) =
  (inr idle_loop,
   {| heap := h; requests := 1; queues := []; registered := []; started := false;
      xQueue := None;
      actions := [queue_create mainQUEUE_LENGTH sizeof_uint32_t None;
                  store_xQueue None; load_xQueue] |}).
Proof.
  intros H. run_registrar. reflexivity.
Qed.

Lemma ipsa_sched_with_queue (c : config) (h : nat -> bool) :
  h 0%nat = true ->
  ipsa_sched c (boot h) =
  (inr (if h 6%nat then scheduler_running else idle_loop),
   {| heap := h; requests := 7; queues := [(mainQUEUE_LENGTH, sizeof_uint32_t)];
      registered := granted h 1 (descriptors c);
      started := h 6%nat;
      xQueue := Some 0%nat;
      actions := [queue_create mainQUEUE_LENGTH sizeof_uint32_t (Some 0%nat);
                  store_xQueue (Some 0%nat); load_xQueue]
                 ++ map (fun kd => task_create (snd kd) (h (fst kd)))
                      (combine (seq 1 5) (descriptors c))
                 ++ [start_scheduler (h 6%nat)] |}).
Proof.
  intros H.
  destruct (h 1%nat) eqn:E1, (h 2%nat) eqn:E2, (h 3%nat) eqn:E3, (h 4%nat) eqn:E4,
    (h 5%nat) eqn:E5, (h 6%nat) eqn:E6;
    run_registrar; reflexivity.
Qed.

(** With room for the queue but not for the first task, four tasks are
    left with the kernel and the scheduler runs them. *)
Lemma task_creation_failure_unchecked :
  ~ all_or_nothing linux_port (fun k => negb (Nat.eqb k 1)) /\
  fst (ipsa_sched linux_port (boot (fun k => negb (Nat.eqb k 1)))) = inr scheduler_running /\
  map pcName (registered (snd (ipsa_sched linux_port (boot (fun k => negb (Nat.eqb k 1))))))
    = ["TX2"; "TX3"; "TX4"; "Aperiodic"]%string /\
  started (snd (ipsa_sched linux_port (boot (fun k => negb (Nat.eqb k 1))))) = true.
Proof.
  split; [|split; [|split]]; try (vm_compute; reflexivity).
  intros H. destruct H as (H & _).
  - exists 1%nat. split; [lia | reflexivity].
  - vm_compute in H. discriminate H.
Qed.

(** C2 (amended): startup is all or nothing with respect to the queue only.
    When the queue cannot be created, [ipsa_sched] creates no task, does
    not start the scheduler, asks the kernel for nothing more and ends in
    its idle loop.  The results of the task creations are not looked at:
    when the queue exists all five creations are attempted, the tasks that
    could be created stay with the kernel, the scheduler is started once,
    and the idle loop is reached only if that call returns. *)
Theorem startup_guarded_by_queue (c : config) (h : nat -> bool) :
  (h 0%nat = false ->
   fst (ipsa_sched c (boot h)) = inr idle_loop /\
   registered (snd (ipsa_sched c (boot h))) = [] /\
   started (snd (ipsa_sched c (boot h))) = false /\
   created_tasks (actions (snd (ipsa_sched c (boot h)))) = [] /\
   scheduler_starts (actions (snd (ipsa_sched c (boot h)))) = 0%nat /\
   requests (snd (ipsa_sched c (boot h))) = 1%nat) /\
  (h 0%nat = true ->
   created_tasks (actions (snd (ipsa_sched c (boot h)))) = descriptors c /\
   registered (snd (ipsa_sched c (boot h))) = granted h 1 (descriptors c) /\
   scheduler_starts (actions (snd (ipsa_sched c (boot h)))) = 1%nat /\
   started (snd (ipsa_sched c (boot h))) = h 6%nat /\
   fst (ipsa_sched c (boot h)) = inr (if h 6%nat then scheduler_running else idle_loop)).
Proof.
  split; intros H.
  - rewrite (ipsa_sched_without_queue c h H). repeat split.
  - rewrite (ipsa_sched_with_queue c h H). repeat split.
Qed.

Lemma startup_guarded_by_queue_witness :
  (fst (ipsa_sched linux_port (boot (fun _ => false))) = inr idle_loop /\
   registered (snd (ipsa_sched linux_port (boot (fun _ => false)))) = [] /\
   started (snd (ipsa_sched linux_port (boot (fun _ => false)))) = false) /\
  (created_tasks (actions (snd (ipsa_sched linux_port (boot (fun k => negb (Nat.eqb k 1))))))
     = descriptors linux_port /\
   started (snd (ipsa_sched linux_port (boot (fun k => negb (Nat.eqb k 1))))) = true).
Proof.
  split.
  - destruct (proj1 (startup_guarded_by_queue linux_port (fun _ => false)) eq_refl)
      as (H1 & H2 & H3 & _).
    exact (conj H1 (conj H2 H3)).
  - destruct (proj2 (startup_guarded_by_queue linux_port (fun k => negb (Nat.eqb k 1)))
                eq_refl) as (H1 & _ & _ & H4 & _).
    exact (conj H1 H4).
Defined.

(** ** The queue *)

Lemma descriptors_sorted (c : config) :
  priorities_fit c -> StronglySorted Z.lt (map uxPriority (descriptors c)).
Proof.
  intros H. unfold descriptors. cbn [map uxPriority].
  exact_priorities H.
  repeat (constructor; [|repeat (constructor; try lia)]). constructor.
Qed.

(** * Further properties *)

(** ** The search over any array, sorted or not *)

(** From bounds inside an array of at most 2^30 elements the loop returns
    without leaving the array; the bounds only move inwards, and a set
    found flag comes with the place of the target in [mid]. *)
Lemma while_loop_safe (fuel : nat) :
  forall s,
    Z.of_nat (List.length (list_ s)) <= 2 ^ 30 ->
    0 <= low s -> high s < Z.of_nat (List.length (list_ s)) ->
    low s <= high s + 1 ->
    high s - low s + 1 <= Z.of_nat fuel ->
    exists s',
      while_loop fuel s = Done s' /\
      list_ s' = list_ s /\ element_to_find s' = element_to_find s /\
      low s <= low s' /\ high s' <= high s /\ low s' <= high s' + 1 /\
      ((found s' = 1 /\
        exists m, mid s' = Some m /\ low s' <= m <= high s' /\
                  index (list_ s) m = Some (element_to_find s)) \/
       (found s' = found s /\ low s' = high s' + 1)).
Proof.
  change (2 ^ 30) with 1073741824.
  induction fuel as [|fuel IH]; intros s Hlen H0 Hhi Hgap Hfuel.
  - assert (E : loop_step s = Exit) by (apply loop_step_empty; lia).
    exists s. cbn [while_loop]. rewrite E.
    repeat split; lia.
  - cbn [while_loop]. destruct (loop_step s) as [|b|s'|] eqn:E.
    + apply loop_step_Exit in E. exists s.
      repeat split; lia.
    + destruct (loop_step_Break s b E) as (Hle & Hi & ->).
      destruct (midpoint_exact s H0 Hle ltac:(lia)) as (Hm & Hr & _).
      eexists. split; [reflexivity|]. cbn. repeat split; try lia.
      left. split; [reflexivity|]. exists (midpoint s).
      split; [reflexivity|]. rewrite Hm in *. split; [lia | exact Hi].
    + destruct (loop_step_Continue s s' H0 ltac:(lia) E)
        as (Hm & Hl & Hx & Hfd & _ & v & Hv & Hc).
      assert (B : low s <= low s' /\ high s' <= high s /\ low s' <= high s' + 1 /\
                  high s' - low s' + 1 <= Z.of_nat fuel).
      { destruct Hc as [(_ & Hlo & Hh) | (_ & Hlo & Hh)]; rewrite Hlo, Hh; lia. }
      destruct B as (B1 & B2 & B3 & B4).
      destruct (IH s') as (s'' & Hw & Hl' & Hx' & C1 & C2 & C3 & Hres);
        try rewrite Hl; try lia.
      exists s''. split; [exact Hw|].
      rewrite Hl', Hx', Hl, Hx. repeat split; try lia.
      rewrite Hl, Hx, Hfd in Hres. exact Hres.
    + exfalso. destruct (loop_step_Fault s E) as [Hle Hi].
      destruct (midpoint_exact s H0 Hle ltac:(lia)) as (Hm & Hr & _).
      destruct (index_defined (list_ s) (midpoint s)) as [v Hv]; [rewrite Hm; lia|].
      rewrite Hv in Hi. discriminate.
Qed.

Lemma search_locals_high (a : list Z) (x : Z) :
  Z.of_nat (List.length a) <= 2 ^ 30 ->
  high (search_locals a x) = Z.of_nat (List.length a) - 1.
Proof.
  intros Hlen. cbn. apply int_sub_exact.
  change (2 ^ 30) with 1073741824 in Hlen.
  unfold INT_MIN, INT_MAX, smin, smax, int_bits. simpl. lia.
Qed.

Lemma search_safe (a : list Z) (x : Z) :
  Z.of_nat (List.length a) <= 2 ^ 30 ->
  exists s',
    search (search_locals a x) = Done s' /\
    list_ s' = a /\ element_to_find s' = x /\
    0 <= low s' /\ high s' < Z.of_nat (List.length a) /\ low s' <= high s' + 1 /\
    ((found s' = 1 /\
      exists m, mid s' = Some m /\ low s' <= m <= high s' /\ index a m = Some x) \/
     (found s' = 0 /\ low s' = high s' + 1)).
Proof.
  intros Hlen. pose proof (search_locals_high a x Hlen) as Hh.
  destruct (while_loop_safe (candidates (search_locals a x)) (search_locals a x))
    as (s' & Hw & Hl & Hx & C1 & C2 & C3 & Hres).
  - exact Hlen.
  - cbn. lia.
  - rewrite Hh. cbn. lia.
  - rewrite Hh. cbn. lia.
  - unfold candidates. rewrite Hh. cbn [low search_locals]. lia.
  - exists s'. split; [exact Hw|]. rewrite Hh in C2.
    cbn [low list_ element_to_find found search_locals] in *.
    repeat split; try assumption; lia.
Qed.

(** X1: over every array of at most 2^30 elements, sorted or not, and for
    every target the search returns: it never reads outside the array and
    does not run on; the array and the target are as before, and the bounds
    end with [0 <= low <= length], [-1 <= high <= length - 1] and
    [low <= high + 1] ([low] may end one past the last index and [high]
    one before the first). *)
Theorem search_returns_in_bounds (a : list Z) (x : Z) :
  Z.of_nat (List.length a) <= 2 ^ 30 ->
  exists s',
    search (search_locals a x) = Done s' /\
    list_ s' = a /\ element_to_find s' = x /\
    0 <= low s' <= Z.of_nat (List.length a) /\
    -1 <= high s' <= Z.of_nat (List.length a) - 1 /\
    low s' <= high s' + 1.
Proof.
  intros Hlen.
  destruct (search_safe a x Hlen) as (s' & H1 & H2 & H3 & H4 & H5 & H6 & _).
  exists s'. repeat split; try assumption; lia.
Qed.

Lemma search_returns_in_bounds_witness :
  exists s',
    search (search_locals [9; 2; 7] 7) = Done s' /\
    list_ s' = [9; 2; 7] /\ element_to_find s' = 7 /\
    0 <= low s' <= Z.of_nat (List.length [9; 2; 7]) /\
    -1 <= high s' <= Z.of_nat (List.length [9; 2; 7]) - 1 /\
    low s' <= high s' + 1.
Proof.
  apply (search_returns_in_bounds [9; 2; 7] 7). vm_compute. discriminate.
Defined.

(** X2: the search has no false positive, whether the array is sorted or
    not: when it ends with the found flag set, [mid] holds an index between
    the final [low] and [high] at which the array has the target. *)
Theorem search_found_is_sound (a : list Z) (x : Z) (s' : task4_locals) :
  Z.of_nat (List.length a) <= 2 ^ 30 ->
  search (search_locals a x) = Done s' ->
  found s' <> 0 ->
  In x a /\
  exists m, mid s' = Some m /\ low s' <= m <= high s' /\ index a m = Some x.
Proof.
  intros Hlen Hs Hf.
  destruct (search_safe a x Hlen) as (t & Ht & _ & _ & _ & _ & _ & Hres).
  rewrite Hs in Ht. injection Ht as <-.
  destruct Hres as [(_ & m & Hm & Hr & Hi) | (H0 & _)]; [|contradiction].
  split; [exact (index_In _ _ _ Hi)|]. exists m. auto.
Qed.

Lemma search_found_is_sound_witness :
  In 2 [9; 2; 7] /\
  exists m, mid {| list_ := [9; 2; 7]; element_to_find := 2; low := 0; high := 2;
                   mid := Some 1; found := 1 |} = Some m /\
            0 <= m <= 2 /\ index [9; 2; 7] m = Some 2.
Proof.
  apply (search_found_is_sound [9; 2; 7] 2
           {| list_ := [9; 2; 7]; element_to_find := 2; low := 0; high := 2;
              mid := Some 1; found := 1 |}).
  - vm_compute. discriminate.
  - reflexivity.
  - discriminate.
Defined.

(** X3: over an array of [n] elements, [1 <= n <= 2^30], sorted or not, a
    search makes at most [log2 n + 1] probes (rounded down), whatever the
    target. *)
Theorem search_probe_count (a : list Z) (x : Z) :
  1 <= Z.of_nat (List.length a) <= 2 ^ 30 ->
  Z.of_nat (List.length (probes (candidates (search_locals a x)) (search_locals a x)))
    <= Z.log2 (Z.of_nat (List.length a)) + 1.
Proof.
  intros [H1 Hlen].
  pose proof (search_locals_high a x Hlen) as Hh.
  pose proof (Z.log2_nonneg (Z.of_nat (List.length a))) as Hl.
  pose proof (Z.log2_spec (Z.of_nat (List.length a)) ltac:(lia)) as [_ Hs].
  pose proof (probes_log_bound
                (Z.to_nat (Z.log2 (Z.of_nat (List.length a)) + 1))
                (candidates (search_locals a x)) (search_locals a x)) as P.
  change (2 ^ 30) with 1073741824 in Hlen.
  rewrite Z2Nat.id in P by lia.
  assert ((List.length (probes (candidates (search_locals a x)) (search_locals a x))
           <= Z.to_nat (Z.log2 (Z.of_nat (List.length a)) + 1))%nat).
  { apply P.
    - cbn. lia.
    - rewrite Hh. lia.
    - rewrite Hh. cbn [low search_locals].
      replace (Z.log2 (Z.of_nat (List.length a)) + 1)
        with (Z.succ (Z.log2 (Z.of_nat (List.length a)))) by lia.
      lia. }
  lia.
Qed.

Lemma search_probe_count_witness :
  Z.of_nat (List.length (probes (candidates (search_locals list50 50))
                           (search_locals list50 50)))
    <= Z.log2 (Z.of_nat (List.length list50)) + 1.
Proof.
  apply (search_probe_count list50 50). split; vm_compute; discriminate.
Defined.

(** ** Running the loop again *)

Lemma loop_step_Break_again (s s' : task4_locals) :
  loop_step s = Break s' -> loop_step s' = Break s'.
Proof.
  intros E. destruct (loop_step_Break s s' E) as (Hle & Hi & ->).
  unfold loop_step. cbn [low high list_ element_to_find found mid].
  replace (low s <=? high s) with true by (symmetry; apply Z.leb_le; exact Hle).
  change (midpoint {| list_ := list_ s; element_to_find := element_to_find s;
                      low := low s; high := high s; mid := Some (midpoint s);
                      found := 1 |}) with (midpoint s).
  rewrite Hi, Z.eqb_refl. reflexivity.
Qed.

Lemma while_loop_again (fuel : nat) :
  forall s s', while_loop fuel s = Done s' ->
  forall fuel', while_loop fuel' s' = Done s'.
Proof.
  induction fuel as [|fuel IH]; intros s s' H fuel';
    cbn [while_loop] in H; destruct (loop_step s) as [|b|t|] eqn:E;
    try discriminate H.
  - injection H as <-. destruct fuel'; cbn [while_loop]; rewrite E; reflexivity.
  - injection H as <-. apply loop_step_Break_again in E.
    destruct fuel'; cbn [while_loop]; rewrite E; reflexivity.
  - injection H as <-. destruct fuel'; cbn [while_loop]; rewrite E; reflexivity.
  - injection H as <-. apply loop_step_Break_again in E.
    destruct fuel'; cbn [while_loop]; rewrite E; reflexivity.
  - exact (IH t s' H fuel').
Qed.

(** X4: the locals in which a search ends are a fixed point of the search,
    for every array, target and starting bounds: running the loop again
    without resetting [low], [high] and [found], as every later iteration
    of the task does, returns at once with the same locals. *)
Theorem search_again_changes_nothing (s s' : task4_locals) :
  search s = Done s' -> search s' = Done s'.
Proof.
  intros H. exact (while_loop_again (candidates s) s s' H (candidates s')).
Qed.

Lemma search_again_changes_nothing_witness :
  search {| list_ := list50; element_to_find := 51; low := 50; high := 49;
            mid := Some 49; found := 0 |}
  = Done {| list_ := list50; element_to_find := 51; low := 50; high := 49;
            mid := Some 49; found := 0 |}.
Proof.
  apply (search_again_changes_nothing (search_locals list50 51)). reflexivity.
Defined.

(** ** The search over a sorted array: where it ends *)

Lemma search_sorted_result (a : list Z) (x : Z) :
  Sorted Z.le a ->
  Z.of_nat (List.length a) <= 2 ^ 30 ->
  exists s',
    search (search_locals a x) = Done s' /\
    ((found s' = 1 /\ In x a) \/ (found s' = 0 /\ high s' < low s' /\ ~ In x a)).
Proof.
  intros Hs Hlen. pose proof (search_locals_high a x Hlen) as Hh.
  destruct (while_loop_decides (candidates (search_locals a x)) (search_locals a x))
    as (s' & Hw & _ & _ & Hres).
  - exact Hs.
  - exact Hlen.
  - cbn. lia.
  - rewrite Hh. cbn. lia.
  - unfold candidates. rewrite Hh. cbn [low search_locals]. lia.
  - reflexivity.
  - intros i Hi. rewrite Hh. cbn [low list_ search_locals] in *.
    destruct (index_Some _ _ _ Hi) as [R _]. lia.
  - exists s'. split; [exact Hw | exact Hres].
Qed.

Lemma member_In (x : Z) (a : list Z) : member x a = true <-> In x a.
Proof.
  unfold member. rewrite existsb_exists. split.
  - intros (y & Hy & E). apply Z.eqb_eq in E. subst y. exact Hy.
  - intros H. exists x. split; [exact H | apply Z.eqb_refl].
Qed.

(** X5: with any sorted array of at most 2^30 elements and any target in
    place of the fifty numbers and 25, every iteration of the task prints
    the verdict that is true of the array, "Element found" exactly when the
    target occurs in it, and then delays for the period: that the locals
    are not reset between iterations does not change any answer. *)
Theorem search_task_prints_membership (c : config) (a : list Z) (x : Z) (n : nat) :
  Sorted Z.le a ->
  Z.of_nat (List.length a) <= 2 ^ 30 ->
  calls_at (search_task c a x) n =
  Some [verdict (member x a); vTaskDelay (TASK4_PERIOD_MS c)].
Proof.
  intros Hs Hlen.
  destruct (search_sorted_result a x Hs Hlen) as (s' & Hw & Hres).
  assert (V : printf (if found s' =? 0 then "Element not found\n" else "Element found\n") []
              = verdict (member x a)).
  { unfold verdict. destruct Hres as [(Hf & HI) | (Hf & _ & HI)]; rewrite Hf.
    - apply member_In in HI. rewrite HI. reflexivity.
    - destruct (member x a) eqn:M; [|reflexivity].
      apply member_In in M. contradiction. }
  assert (B0 : body (search_task c a x) (search_locals a x)
               = Some (s', [verdict (member x a); vTaskDelay (TASK4_PERIOD_MS c)])).
  { cbn [body search_task]. unfold vPeriodicTask4_body. rewrite Hw, V. reflexivity. }
  assert (B1 : body (search_task c a x) s'
               = Some (s', [verdict (member x a); vTaskDelay (TASK4_PERIOD_MS c)])).
  { cbn [body search_task]. unfold vPeriodicTask4_body.
    unfold search.
    rewrite (while_loop_again (candidates (search_locals a x)) _ _ Hw (candidates s')).
    rewrite V. reflexivity. }
  destruct n as [|n].
  - unfold calls_at. cbn [locals_at]. cbn [locals0 search_task]. rewrite B0. reflexivity.
  - apply (calls_at_steady (search_task c a x) s' _ 1); [|exact B1].
    cbn [locals_at]. cbn [locals0 search_task]. rewrite B0. reflexivity.
Qed.

Lemma search_task_prints_membership_witness :
  calls_at (search_task linux_port [1; 3; 5; 7] 4) 3 =
  Some [verdict (member 4 [1; 3; 5; 7]); vTaskDelay (TASK4_PERIOD_MS linux_port)].
Proof.
  apply (search_task_prints_membership linux_port [1; 3; 5; 7] 4 3).
  - repeat first [apply Sorted_nil | apply Sorted_cons | apply HdRel_nil | apply HdRel_cons];
      lia.
  - vm_compute. discriminate.
Defined.

(** The source's task is the instance for its own array and target. *)
Lemma vPeriodicTask4_is_search_task (c : config) :
  vPeriodicTask4 c = search_task c list50 25.
Proof. reflexivity. Qed.

(** Below [low] everything is smaller than the target and above [high]
    everything is larger, all through the loop. *)
Lemma while_loop_partitions (fuel : nat) :
  forall s s',
    Sorted Z.le (list_ s) ->
    0 <= low s -> high s <= 1073741823 ->
    (forall i v, index (list_ s) i = Some v -> i < low s -> v < element_to_find s) ->
    (forall i v, index (list_ s) i = Some v -> high s < i -> element_to_find s < v) ->
    while_loop fuel s = Done s' ->
    found s' = found s ->
    (forall i v, index (list_ s) i = Some v -> i < low s' -> v < element_to_find s) /\
    (forall i v, index (list_ s) i = Some v -> high s' < i -> element_to_find s < v).
Proof.
  induction fuel as [|fuel IH]; intros s s' Hs H0 Hhi Pl Ph Hw Hf;
    cbn [while_loop] in Hw; destruct (loop_step s) as [|b|t|] eqn:E;
    try discriminate Hw.
  - injection Hw as <-. split; assumption.
  - injection Hw as <-. destruct (loop_step_Break s b E) as (_ & _ & ->).
    split; assumption.
  - injection Hw as <-. split; assumption.
  - injection Hw as <-. destruct (loop_step_Break s b E) as (_ & _ & ->).
    split; assumption.
  - destruct (loop_step_Continue s t H0 Hhi E)
      as (Hm & Hl & Hx & Hfd & _ & v & Hv & Hc).
    rewrite <- Hl, <- Hx.
    apply (IH t s'); try (rewrite Hl); try (rewrite Hx); try assumption.
    + destruct Hc as [(_ & Hlo & Hh) | (_ & Hlo & Hh)]; rewrite Hlo; lia.
    + destruct Hc as [(_ & Hlo & Hh) | (_ & Hlo & Hh)]; rewrite Hh; lia.
    + intros i w Hi Hlt.
      destruct Hc as [(Hvx & Hlo & Hh) | (Hvx & Hlo & Hh)]; rewrite Hlo in Hlt.
      * assert (i <= (low s + high s) / 2) as Hle by lia.
        pose proof (sorted_index _ Hs _ _ _ _ Hle Hi Hv). lia.
      * exact (Pl i w Hi Hlt).
    + intros i w Hi Hlt.
      destruct Hc as [(Hvx & Hlo & Hh) | (Hvx & Hlo & Hh)]; rewrite Hh in Hlt.
      * exact (Ph i w Hi Hlt).
      * assert ((low s + high s) / 2 <= i) as Hle by lia.
        pose proof (sorted_index _ Hs _ _ _ _ Hle Hv Hi). lia.
    + rewrite Hfd. exact Hf.
Qed.

(** X6: when the search over a sorted array of at most 2^30 elements ends
    without the found flag, [low] is the place where the target would have
    to be inserted: [high = low - 1], every element before index [low] is
    smaller than the target and every element from [low] on is larger. *)
Theorem search_miss_leaves_insertion_point (a : list Z) (x : Z) (s' : task4_locals) :
  Sorted Z.le a ->
  Z.of_nat (List.length a) <= 2 ^ 30 ->
  search (search_locals a x) = Done s' ->
  found s' = 0 ->
  0 <= low s' <= Z.of_nat (List.length a) /\
  high s' = low s' - 1 /\
  forall i v, index a i = Some v -> (i < low s' -> v < x) /\ (low s' <= i -> x < v).
Proof.
  intros Hs Hlen Hw Hf.
  pose proof (search_locals_high a x Hlen) as Hh.
  destruct (search_safe a x Hlen) as (t & Ht & _ & _ & B1 & B2 & B3 & Hres).
  rewrite Hw in Ht. injection Ht as <-.
  destruct Hres as [(H1 & _) | (_ & Hgap)]; [rewrite Hf in H1; discriminate|].
  destruct (while_loop_partitions (candidates (search_locals a x)) (search_locals a x) s')
    as [Pl Ph]; try assumption.
  - cbn. lia.
  - rewrite Hh. change (2 ^ 30) with 1073741824 in Hlen. lia.
  - cbn [low list_ search_locals]. intros i v Hi Hlt.
    destruct (index_Some _ _ _ Hi) as [R _]. lia.
  - rewrite Hh. cbn [list_ search_locals]. intros i v Hi Hlt.
    destruct (index_Some _ _ _ Hi) as [R _]. lia.
  - cbn [list_ element_to_find search_locals] in Pl, Ph.
    split; [lia|]. split; [lia|].
    intros i v Hi. split; intros Hlt.
    + exact (Pl i v Hi Hlt).
    + apply (Ph i v Hi). lia.
Qed.

Lemma search_miss_leaves_insertion_point_witness :
  let s' := {| list_ := [1; 3; 5; 7]; element_to_find := 4; low := 2; high := 1;
               mid := Some 2; found := 0 |} in
  0 <= low s' <= Z.of_nat (List.length [1; 3; 5; 7]) /\
  high s' = low s' - 1 /\
  forall i v, index [1; 3; 5; 7] i = Some v -> (i < low s' -> v < 4) /\ (low s' <= i -> 4 < v).
Proof.
  intros s'.
  apply (search_miss_leaves_insertion_point [1; 3; 5; 7] 4 s').
  - repeat first [apply Sorted_nil | apply Sorted_cons | apply HdRel_nil | apply HdRel_cons];
      lia.
  - vm_compute. discriminate.
  - reflexivity.
  - reflexivity.
Defined.

(** ** The registrar with any allocation failures *)

Lemma granted_In (h : nat -> bool) (ds : list descriptor) :
  forall k d, In d (granted h k ds) -> In d ds.
Proof.
  induction ds as [|e ds IH]; intros k d H; cbn [granted] in H.
  - contradiction.
  - destruct (h k).
    + destruct H as [H|H]; [left; exact H | right; exact (IH _ _ H)].
    + right. exact (IH _ _ H).
Qed.

Lemma granted_sorted (h : nat -> bool) (ds : list descriptor) :
  forall k,
    StronglySorted Z.lt (map uxPriority ds) ->
    StronglySorted Z.lt (map uxPriority (granted h k ds)).
Proof.
  induction ds as [|e ds IH]; intros k H; cbn [granted].
  - constructor.
  - cbn [map] in H. apply StronglySorted_inv in H. destruct H as [Hs Hall].
    destruct (h k).
    + cbn [map]. constructor; [exact (IH _ Hs)|].
      rewrite Forall_forall in *. intros p Hp.
      apply in_map_iff in Hp. destruct Hp as (d & <- & Hd).
      apply Hall. apply in_map. exact (granted_In _ _ _ _ Hd).
    + exact (IH _ Hs).
Qed.

Lemma registered_after_boot (c : config) (h : nat -> bool) :
  registered (snd (ipsa_sched c (boot h))) = [] \/
  registered (snd (ipsa_sched c (boot h))) = granted h 1 (descriptors c).
Proof.
  destruct (h 0%nat) eqn:H.
  - right. rewrite (ipsa_sched_with_queue c h H). reflexivity.
  - left. rewrite (ipsa_sched_without_queue c h H). reflexivity.
Qed.

(** X7: whichever allocations fail, the tasks that [ipsa_sched] leaves
    with the kernel are among its five descriptors, in the order of the
    source, with strictly increasing and hence pairwise different
    priorities (given that [tskIDLE_PRIORITY + 5] does not wrap). *)
Theorem registered_tasks_keep_priority_order (c : config) (h : nat -> bool) :
  priorities_fit c ->
  (forall d, In d (registered (snd (ipsa_sched c (boot h)))) -> In d (descriptors c)) /\
  StronglySorted Z.lt (map uxPriority (registered (snd (ipsa_sched c (boot h))))) /\
  NoDup (map uxPriority (registered (snd (ipsa_sched c (boot h))))).
Proof.
  intros Hp.
  assert (S : StronglySorted Z.lt
                (map uxPriority (registered (snd (ipsa_sched c (boot h)))))).
  { destruct (registered_after_boot c h) as [-> | ->].
    - constructor.
    - apply granted_sorted. exact (descriptors_sorted c Hp). }
  split; [|split; [exact S|]].
  - intros d. destruct (registered_after_boot c h) as [-> | ->].
    + intros [].
    + apply granted_In.
  - induction S as [|p l Hs IH Hall]; constructor; [|exact IH].
    intros Hin. rewrite Forall_forall in Hall. specialize (Hall p Hin). lia.
Qed.

Lemma registered_tasks_keep_priority_order_witness :
  (forall d,
     In d (registered (snd (ipsa_sched linux_port (boot (fun k => Nat.even k))))) ->
     In d (descriptors linux_port)) /\
  StronglySorted Z.lt
    (map uxPriority (registered (snd (ipsa_sched linux_port (boot (fun k => Nat.even k)))))) /\
  NoDup (map uxPriority (registered (snd (ipsa_sched linux_port (boot (fun k => Nat.even k)))))).
Proof.
  apply (registered_tasks_keep_priority_order linux_port (fun k => Nat.even k)).
  unfold priorities_fit. simpl. lia.
Defined.

(** X8: the scheduler runs only behind a valid queue handle: [ipsa_sched]
    ends with the scheduler running exactly when the kernel's scheduler was
    started, and then [xQueue] is the handle of a queue of 2 items of 4
    bytes; with [xQueue] left NULL no task is with the kernel and the
    scheduler was not started. *)
Theorem scheduler_runs_behind_queue (c : config) (h : nat -> bool) :
  (fst (ipsa_sched c (boot h)) = inr scheduler_running <->
   started (snd (ipsa_sched c (boot h))) = true) /\
  (started (snd (ipsa_sched c (boot h))) = true ->
   exists q,
     xQueue (snd (ipsa_sched c (boot h))) = Some q /\
     nth_error (queues (snd (ipsa_sched c (boot h)))) q = Some (2, 4)) /\
  (xQueue (snd (ipsa_sched c (boot h))) = None ->
   registered (snd (ipsa_sched c (boot h))) = [] /\
   started (snd (ipsa_sched c (boot h))) = false /\
   fst (ipsa_sched c (boot h)) = inr idle_loop).
Proof.
  destruct (h 0%nat) eqn:H.
  - rewrite (ipsa_sched_with_queue c h H). cbn [fst snd started xQueue queues registered].
    split; [|split].
    + destruct (h 6%nat); split; intros E; try reflexivity; discriminate E.
    + intros _. exists 0%nat. split; reflexivity.
    + intros E. discriminate E.
  - rewrite (ipsa_sched_without_queue c h H). cbn [fst snd started xQueue queues registered].
    split; [|split].
    + split; intros E; discriminate E.
    + intros E. discriminate E.
    + intros _. repeat split.
Qed.

Lemma scheduler_runs_behind_queue_witness :
  (exists q,
     xQueue (snd (ipsa_sched linux_port (boot (fun _ => true)))) = Some q /\
     nth_error (queues (snd (ipsa_sched linux_port (boot (fun _ => true))))) q = Some (2, 4)) /\
  (registered (snd (ipsa_sched linux_port (boot (fun _ => false)))) = [] /\
   started (snd (ipsa_sched linux_port (boot (fun _ => false)))) = false /\
   fst (ipsa_sched linux_port (boot (fun _ => false))) = inr idle_loop).
Proof.
  split.
  - apply (proj1 (proj2 (scheduler_runs_behind_queue linux_port (fun _ => true)))).
    vm_compute. reflexivity.
  - apply (proj2 (proj2 (scheduler_runs_behind_queue linux_port (fun _ => false)))).
    vm_compute. reflexivity.
Defined.

(** ** The registrar in a kernel that already has tasks and queues *)

Lemma extends_refl (w : world) : extends 0 w w.
Proof.
  unfold extends. repeat split; try lia; try (exists []; symmetry; apply app_nil_r).
  intros H. exact H.
Qed.

Lemma extends_trans (n k : nat) (w1 w2 w3 : world) :
  extends n w1 w2 -> extends k w2 w3 -> extends (n + k) w1 w3.
Proof.
  intros (H1 & R1 & (q1 & Q1) & (t1 & T1) & (a1 & A1) & S1)
         (H2 & R2 & (q2 & Q2) & (t2 & T2) & (a2 & A2) & S2).
  unfold extends. repeat split; try lia.
  - congruence.
  - exists (q1 ++ q2). rewrite Q2, Q1. symmetry. apply app_assoc.
  - exists (t1 ++ t2). rewrite T2, T1. symmetry. apply app_assoc.
  - exists (a1 ++ a2). rewrite A2, A1. symmetry. apply app_assoc.
  - intros H. exact (S2 (S1 H)).
Qed.

Lemma only_adds_ret {A} (a : A) : only_adds 0 (ret a).
Proof. intros w. apply extends_refl. Qed.

Lemma only_adds_stop {A} (h : halt) : only_adds 0 (@stop A h).
Proof. intros w. apply extends_refl. Qed.

Lemma only_adds_bind {A B} (n k : nat) (m : M A) (f : A -> M B) :
  only_adds n m -> (forall a, only_adds k (f a)) -> only_adds (n + k) (bind m f).
Proof.
  intros Hm Hf w. unfold bind. specialize (Hm w).
  destruct (m w) as [[a|h] w'] eqn:E; cbn [snd] in *.
  - exact (extends_trans n k w w' _ Hm (Hf a w')).
  - replace (n + k)%nat with (n + k + 0)%nat by lia.
    destruct Hm as (H1 & R1 & Q1 & T1 & A1 & S1).
    unfold extends. repeat split; try assumption; lia.
Qed.

Lemma only_adds_record (a : action) : only_adds 0 (record a).
Proof.
  intros w. unfold extends, record. cbn.
  repeat split; try lia; try (exists []; symmetry; apply app_nil_r).
  - exists [a]. reflexivity.
  - intros H. exact H.
Qed.

Lemma only_adds_allocate : only_adds 1 allocate.
Proof.
  intros w. unfold extends, allocate. cbn.
  repeat split; try lia; try (exists []; symmetry; apply app_nil_r).
  intros H. exact H.
Qed.

Lemma only_adds_add_queue (len size : Z) : only_adds 0 (add_queue len size).
Proof.
  intros w. unfold extends, add_queue. cbn.
  repeat split; try lia; try (exists []; symmetry; apply app_nil_r).
  - exists [(len, size)]. reflexivity.
  - intros H. exact H.
Qed.

Lemma only_adds_add_task (d : descriptor) : only_adds 0 (add_task d).
Proof.
  intros w. unfold extends, add_task. cbn.
  repeat split; try lia; try (exists []; symmetry; apply app_nil_r).
  - exists [d]. reflexivity.
  - intros H. exact H.
Qed.

Lemma only_adds_set_started : only_adds 0 set_started.
Proof.
  intros w. unfold extends, set_started. cbn.
  repeat split; try lia; try (exists []; symmetry; apply app_nil_r).
Qed.

Lemma only_adds_xQueueCreate (len size : Z) : only_adds 1 (xQueueCreate len size).
Proof.
  unfold xQueueCreate.
  apply (only_adds_bind 1 0 allocate); [exact only_adds_allocate|].
  intros [|].
  - apply (only_adds_bind 0 0); [apply only_adds_add_queue|]. intros q.
    apply (only_adds_bind 0 0); [apply only_adds_record|]. intros _.
    apply only_adds_ret.
  - apply (only_adds_bind 0 0); [apply only_adds_record|]. intros _.
    apply only_adds_ret.
Qed.

Lemma only_adds_xTaskCreate (code : entry) (name : string) (depth prio : Z) :
  only_adds 1 (xTaskCreate code name depth prio).
Proof.
  unfold xTaskCreate.
  apply (only_adds_bind 1 0 allocate); [exact only_adds_allocate|].
  intros ok.
  apply (only_adds_bind 0 0).
  - destruct ok; [apply only_adds_add_task | apply only_adds_ret].
  - intros _. apply (only_adds_bind 0 0); [apply only_adds_record|]. intros _.
    apply only_adds_ret.
Qed.

Lemma only_adds_vTaskStartScheduler : only_adds 1 vTaskStartScheduler.
Proof.
  unfold vTaskStartScheduler.
  apply (only_adds_bind 1 0 allocate); [exact only_adds_allocate|].
  intros ok.
  apply (only_adds_bind 0 0); [apply only_adds_record|]. intros _.
  destruct ok.
  - apply (only_adds_bind 0 0); [apply only_adds_set_started|]. intros _.
    apply only_adds_stop.
  - apply only_adds_ret.
Qed.

Lemma only_adds_write_xQueue (q : option nat) : only_adds 0 (write_xQueue q).
Proof.
  unfold write_xQueue.
  apply (only_adds_bind 0 0); [apply only_adds_record|]. intros _.
  intros w. unfold extends. cbn.
  repeat split; try lia; try (exists []; symmetry; apply app_nil_r).
  intros H. exact H.
Qed.

Lemma only_adds_read_xQueue : only_adds 0 read_xQueue.
Proof.
  unfold read_xQueue.
  apply (only_adds_bind 0 0); [apply only_adds_record|]. intros _.
  intros w. apply extends_refl.
Qed.

Lemma only_adds_ipsa_sched (c : config) : only_adds 7 (ipsa_sched c).
Proof.
  unfold ipsa_sched.
  apply (only_adds_bind 1 6); [apply only_adds_xQueueCreate|]. intros q.
  apply (only_adds_bind 0 6); [apply only_adds_write_xQueue|]. intros _.
  apply (only_adds_bind 0 6); [apply only_adds_read_xQueue|]. intros q'.
  apply (only_adds_bind 6 0); [|intros _; apply only_adds_stop].
  destruct q' as [q'|].
  - apply (only_adds_bind 1 5); [apply only_adds_xTaskCreate|]. intros _.
    apply (only_adds_bind 1 4); [apply only_adds_xTaskCreate|]. intros _.
    apply (only_adds_bind 1 3); [apply only_adds_xTaskCreate|]. intros _.
    apply (only_adds_bind 1 2); [apply only_adds_xTaskCreate|]. intros _.
    apply (only_adds_bind 1 1); [apply only_adds_xTaskCreate|]. intros _.
    apply only_adds_vTaskStartScheduler.
  - intros w. destruct (extends_refl w) as (H1 & R1 & Q1 & T1 & A1 & S1).
    unfold extends. cbn [ret snd]. repeat split; try assumption; lia.
Qed.

Lemma never_returns_bind {A B} (m : M A) (f : A -> M B) :
  (forall a, never_returns (f a)) -> never_returns (bind m f).
Proof.
  intros Hf w. unfold bind. destruct (m w) as [[a|h] w'].
  - apply Hf.
  - exists h. reflexivity.
Qed.

(** X9: called in any state of the kernel, [ipsa_sched] does not return to
    its caller, and it only adds: the heap is the same, the queues, tasks
    and recorded actions that were there are still there with the new ones
    behind them, a running scheduler is not stopped, and at most seven
    allocation requests are made. *)
Theorem ipsa_sched_never_returns_only_adds (c : config) (w : world) :
  (exists h, fst (ipsa_sched c w) = inr h) /\
  extends 7 w (snd (ipsa_sched c w)).
Proof.
  split; [|apply only_adds_ipsa_sched].
  revert w. change (never_returns (ipsa_sched c)). unfold ipsa_sched.
  do 4 (apply never_returns_bind; intros ?).
  intros w. exists idle_loop. reflexivity.
Qed.

(** ** Unit B over a range of temperatures *)

Lemma Z_range_In (lo : Z) (n : nat) (z : Z) :
  lo <= z < lo + Z.of_nat n -> In z (Z_range lo n).
Proof.
  intros H. unfold Z_range. apply in_map_iff.
  exists (Z.to_nat (z - lo)). split; [lia|].
  apply in_seq. lia.
Qed.

Lemma celsius_checked :
  forallb (fun F => fahrenheit_exact F && celsius_rounded F) (Z_range (-459) 2460) = true.
Proof. vm_compute. reflexivity. Qed.

(** X10: for every whole number of degrees Fahrenheit from -459 to 2000 in
    the local [fahrenheit] (the source has 100), the body of
    [vPeriodicTask2] keeps the local, prints it and the Celsius value, and
    delays for the period; the Fahrenheit float is the number itself and
    the Celsius float differs from the exact (F - 32) * 5 / 9 by at most
    the fraction 2^-24 of it, that of a single rounding to binary32. *)
Theorem task2_celsius_correctly_rounded (c : config) (F : Z) :
  -459 <= F <= 2000 ->
  body (vPeriodicTask2 c) {| fahrenheit := f32 F |} =
    Some ({| fahrenheit := f32 F |},
          [printf "Fahrenheit: %f, Celsius: %f\n"
             [ADouble (f32 F); ADouble (celsius_of (f32 F))];
           vTaskDelay (TASK2_PERIOD_MS c)]) /\
  exists f q,
    float_value (f32 F) = Some f /\ Qeq f (inject_Z F) /\
    float_value (celsius_of (f32 F)) = Some q /\
    Qle (Qmult (Qabs (Qminus q (exact_celsius F))) (inject_Z (2 ^ 24)))
        (Qabs (exact_celsius F)).
Proof.
  intros H. split; [reflexivity|].
  pose proof celsius_checked as K. rewrite forallb_forall in K.
  specialize (K F (Z_range_In (-459) 2460 F ltac:(lia))).
  apply andb_true_iff in K. destruct K as [K1 K2].
  unfold fahrenheit_exact in K1. unfold celsius_rounded in K2.
  destruct (float_value (f32 F)) as [f|]; [|discriminate K1].
  destruct (float_value (celsius_of (f32 F))) as [q|]; [|discriminate K2].
  exists f, q. split; [reflexivity|]. split; [apply Qeq_bool_iff; exact K1|].
  split; [reflexivity|]. apply Qle_bool_iff. exact K2.
Qed.

Lemma task2_celsius_correctly_rounded_witness :
  exists f q,
    float_value (f32 100) = Some f /\ Qeq f (inject_Z 100) /\
    float_value (celsius_of (f32 100)) = Some q /\
    Qle (Qmult (Qabs (Qminus q (exact_celsius 100))) (inject_Z (2 ^ 24)))
        (Qabs (exact_celsius 100)).
Proof.
  apply (proj2 (task2_celsius_correctly_rounded linux_port 100 ltac:(lia))).
Defined.

(** ** Unit C and the width of long int *)

Lemma fits_intro (w z : Z) : smin w <= z <= smax w -> fits w z = true.
Proof.
  intros [H1 H2]. unfold fits. apply andb_true_iff.
  split; apply Z.leb_le; assumption.
Qed.

Lemma task3_exact_when_wide (c : config) (n : nat) :
  65 <= long_bits c ->
  calls_at (vPeriodicTask3 c) n =
  Some [printf "Result: %ld\n" [ALong (9876543210 * 1234567890)];
        vTaskDelay (TASK3_PERIOD_MS c)].
Proof.
  intros Hw. rewrite task3_prints.
  assert (P : 2 ^ 64 <= 2 ^ (long_bits c - 1)) by (apply Z.pow_le_mono_r; lia).
  change (2 ^ 64) with 18446744073709551616 in P.
  assert (F : forall z, 0 <= z <= 12193263111263526900 -> wrap (long_bits c) z = z).
  { intros z Hz. apply wrap_fits; [lia|]. apply fits_intro. unfold smin, smax. lia. }
  unfold long_mul. rewrite (F 9876543210), (F 1234567890) by lia.
  rewrite F; [reflexivity|]. change (9876543210 * 1234567890) with 12193263111263526900. lia.
Qed.

(** X11: on a target whose [long int] has [w >= 1] bits, an iteration of
    [vPeriodicTask3] prints the exact product 9876543210 * 1234567890 if and
    only if [w >= 65]; no [long int] of 64 bits or fewer does. *)
Theorem task3_exact_iff_65_bits (c : config) (n : nat) :
  0 < long_bits c ->
  (calls_at (vPeriodicTask3 c) n =
     Some [printf "Result: %ld\n" [ALong (9876543210 * 1234567890)];
           vTaskDelay (TASK3_PERIOD_MS c)]
   <-> 65 <= long_bits c).
Proof.
  intros Hw. split.
  - intros E. destruct (Z_le_gt_dec 65 (long_bits c)) as [H|H]; [exact H|].
    exfalso. apply (task3_never_exact c n); [lia | exact E].
  - apply task3_exact_when_wide.
Qed.

Lemma task3_exact_iff_65_bits_witness :
  calls_at (vPeriodicTask3 linux_port) 2 =
    Some [printf "Result: %ld\n" [ALong (9876543210 * 1234567890)];
          vTaskDelay (TASK3_PERIOD_MS linux_port)]
  <-> 65 <= long_bits linux_port.
Proof.
  apply (task3_exact_iff_65_bits linux_port 2). vm_compute. reflexivity.
Defined.

(** ** Delays and the length of a tick *)

(** X12: for every tick of at least one millisecond, the four periods and
    the aperiodic delay are all at least one tick if and only if the tick
    is at most 50 ms long; with a longer tick the aperiodic task calls
    [vTaskDelay(0)]. *)
Theorem delays_positive_iff_tick_at_most_50 (c : config) :
  1 <= portTICK_PERIOD_MS c ->
  (0 < TASK1_PERIOD_MS c /\ 0 < TASK2_PERIOD_MS c /\ 0 < TASK3_PERIOD_MS c /\
   0 < TASK4_PERIOD_MS c /\ 0 < APERIODIC_TASK_DELAY_MS c
   <-> portTICK_PERIOD_MS c <= 50) /\
  (50 < portTICK_PERIOD_MS c -> APERIODIC_TASK_DELAY_MS c = 0).
Proof.
  intros H1.
  assert (Z0 : 50 < portTICK_PERIOD_MS c -> APERIODIC_TASK_DELAY_MS c = 0).
  { intros H. unfold APERIODIC_TASK_DELAY_MS. apply Z.div_small. lia. }
  split; [|exact Z0]. split.
  - intros (_ & _ & _ & _ & H).
    destruct (Z_le_gt_dec (portTICK_PERIOD_MS c) 50) as [L|G]; [exact L|].
    rewrite Z0 in H by lia. lia.
  - intros H. apply periods_positive. lia.
Qed.

Lemma delays_positive_iff_tick_at_most_50_witness :
  (0 < TASK1_PERIOD_MS linux_port /\ 0 < TASK2_PERIOD_MS linux_port /\
   0 < TASK3_PERIOD_MS linux_port /\ 0 < TASK4_PERIOD_MS linux_port /\
   0 < APERIODIC_TASK_DELAY_MS linux_port
   <-> portTICK_PERIOD_MS linux_port <= 50) /\
  (50 < portTICK_PERIOD_MS linux_port -> APERIODIC_TASK_DELAY_MS linux_port = 0).
Proof.
  apply (delays_positive_iff_tick_at_most_50 linux_port). vm_compute. discriminate.
Defined.

(** ** The search over more than 2^30 elements *)

Lemma int_wrap_above (z : Z) :
  2147483648 <= z < 4294967296 -> wrap int_bits z = z - 4294967296.
Proof.
  intros H. unfold wrap, int_bits.
  change (2 ^ (32 - 1)) with 2147483648. change (2 ^ 32) with 4294967296.
  replace (z + 2147483648) with (z - 2147483648 + 1 * 4294967296) by lia.
  rewrite Z_mod_plus_full, Z.mod_small; lia.
Qed.

Lemma midpoint_plain (s : task4_locals) :
  0 <= low s -> low s <= high s -> low s + high s <= 2147483647 ->
  midpoint s = (low s + high s) / 2 /\ low s <= (low s + high s) / 2 <= high s.
Proof.
  intros H0 Hle Hsum.
  assert (R : INT_MIN <= low s + high s <= INT_MAX).
  { unfold INT_MIN, INT_MAX, smin, smax, int_bits. simpl. lia. }
  unfold midpoint. rewrite (int_add_exact _ _ R).
  rewrite int_half_exact by (unfold INT_MAX, smax, int_bits; simpl; lia).
  split; [reflexivity|]. split.
  - apply Z.div_le_lower_bound; lia.
  - apply Z.div_le_upper_bound; lia.
Qed.

(** When [low + high] leaves [int], the midpoint is negative. *)
Lemma midpoint_wrapped (s : task4_locals) :
  0 <= low s -> low s <= high s -> high s <= 2147483647 ->
  2147483647 < low s + high s ->
  midpoint s < 0.
Proof.
  intros H0 Hle Hhi Hsum. unfold midpoint, int_add, int_div.
  rewrite (int_wrap_above (low s + high s)) by lia.
  set (t := low s + high s - 4294967296).
  assert (Ht : -2147483648 <= t <= -2) by (unfold t; lia).
  assert (Q : Z.quot t 2 = - ((- t) / 2)).
  { replace t with (- (- t)) at 1 by lia.
    rewrite Z.quot_opp_l by lia. rewrite Z.quot_div_nonneg by lia. reflexivity. }
  assert (1 <= (- t) / 2) by (apply Z.div_le_lower_bound; lia).
  assert ((- t) / 2 <= 1073741824) by (apply Z.div_le_upper_bound; lia).
  rewrite Q. rewrite int_wrap; [lia|].
  unfold INT_MIN, INT_MAX, smin, smax, int_bits. simpl. lia.
Qed.

(** With every element below the target the search walks [low] up to
    [high]; when [high] is 2^30 or more, [low + high] leaves [int] on the
    way and the array is read at a negative index. *)
Lemma while_loop_walks_into_overflow (fuel : nat) :
  forall s,
    (forall i v, index (list_ s) i = Some v -> v < element_to_find s) ->
    high s = Z.of_nat (List.length (list_ s)) - 1 ->
    1073741824 <= high s <= 2147483646 ->
    0 <= low s <= high s ->
    high s - low s + 1 <= Z.of_nat fuel ->
    while_loop fuel s = Undefined.
Proof.
  induction fuel as [|fuel IH]; intros s Hall Hh Hbig Hlo Hfuel; [lia|].
  assert (Hle : (low s <=? high s) = true) by (apply Z.leb_le; lia).
  destruct (Z_le_gt_dec (low s + high s) 2147483647) as [Hsum|Hsum].
  - destruct (midpoint_plain s ltac:(lia) ltac:(lia) Hsum) as [Hm Hr].
    destruct (index_defined (list_ s) ((low s + high s) / 2)) as [v Hv]; [lia|].
    pose proof (Hall _ _ Hv) as Hvx.
    assert (Hstep : loop_step s =
              Continue {| list_ := list_ s; element_to_find := element_to_find s;
                          low := int_add ((low s + high s) / 2) 1; high := high s;
                          mid := Some ((low s + high s) / 2); found := found s |}).
    { unfold loop_step. rewrite Hle, Hm, Hv.
      replace (v =? element_to_find s) with false by (symmetry; apply Z.eqb_neq; lia).
      replace (v <? element_to_find s) with true by (symmetry; apply Z.ltb_lt; lia).
      reflexivity. }
    cbn [while_loop]. rewrite Hstep.
    assert (Hadd : int_add ((low s + high s) / 2) 1 = (low s + high s) / 2 + 1).
    { apply int_add_exact. unfold INT_MIN, INT_MAX, smin, smax, int_bits. simpl. lia. }
    assert (Hlt : (low s + high s) / 2 < high s).
    { apply Z.div_lt_upper_bound; lia. }
    apply IH; cbn [list_ element_to_find low high]; rewrite ?Hadd; try assumption; lia.
  - pose proof (midpoint_wrapped s ltac:(lia) ltac:(lia) ltac:(lia) ltac:(lia)) as Hneg.
    cbn [while_loop]. unfold loop_step.
    rewrite Hle, (index_negative _ _ Hneg). reflexivity.
Qed.

(** X13: the bound of 2^30 elements is sharp.  Over every array of more
    than 2^30 (and at most 2^31 - 1) elements, a search for a target larger
    than all of them reads [list[mid]] at a negative index: [low + high]
    does not fit [int]. *)
Theorem search_overflows_beyond_2_30 (a : list Z) (x : Z) :
  2 ^ 30 < Z.of_nat (List.length a) <= 2 ^ 31 - 1 ->
  (forall v, In v a -> v < x) ->
  search (search_locals a x) = Undefined.
Proof.
  change (2 ^ 30) with 1073741824. change (2 ^ 31 - 1) with 2147483647.
  intros Hlen Hall.
  assert (Hh : high (search_locals a x) = Z.of_nat (List.length a) - 1).
  { cbn. apply int_sub_exact.
    unfold INT_MIN, INT_MAX, smin, smax, int_bits. simpl. lia. }
  unfold search. apply while_loop_walks_into_overflow.
  - cbn [list_ element_to_find search_locals]. intros i v Hi.
    exact (Hall v (index_In _ _ _ Hi)).
  - rewrite Hh. reflexivity.
  - rewrite Hh. lia.
  - rewrite Hh. cbn [low search_locals]. lia.
  - unfold candidates. rewrite Hh. cbn [low search_locals]. lia.
Qed.

Lemma search_overflows_beyond_2_30_witness :
  search (search_locals (repeat 0 (Z.to_nat 1073741825)) 1) = Undefined.
Proof.
  apply (search_overflows_beyond_2_30 (repeat 0 (Z.to_nat 1073741825)) 1).
  - rewrite repeat_length, Z2Nat.id by lia.
    change (2 ^ 30) with 1073741824. change (2 ^ 31 - 1) with 2147483647. lia.
  - intros v H. apply repeat_spec in H. lia.
Defined.

(** ** The aperiodic task *)


(** ** The queue and its handle *)

(** On the Linux port the items of the queue are 4 bytes long, half a
    machine word, and [xQueue] is read after it was stored, by the test
    [xQueue != NULL]. *)
Lemma queue_items_half_word_handle_read :
  created_queues (actions (snd (ipsa_sched linux_port (boot (fun _ => true))))) = [(2, 4)] /\
  machine_word_bytes linux_port = 8 /\
  firstn 3 (actions (snd (ipsa_sched linux_port (boot (fun _ => true)))))
    = [queue_create 2 4 (Some 0%nat); store_xQueue (Some 0%nat); load_xQueue] /\
  xQueue_loads (actions (snd (ipsa_sched linux_port (boot (fun _ => true))))) = 1%nat /\
  ~ queue_word_sized_never_read linux_port (fun _ => true).
Proof.
  rewrite (ipsa_sched_with_queue linux_port (fun _ => true) eq_refl).
  split; [reflexivity|]. split; [reflexivity|]. split; [reflexivity|].
  split; [reflexivity|].
  unfold queue_word_sized_never_read.
  rewrite (ipsa_sched_with_queue linux_port (fun _ => true) eq_refl).
  intros (_ & _ & H). vm_compute in H. discriminate H.
Qed.

Lemma granted_all (h : nat -> bool) (ds : list descriptor) :
  forall k,
    (forall i, (k <= i < k + List.length ds)%nat -> h i = true) ->
    granted h k ds = ds.
Proof.
  induction ds as [|d ds IH]; intros k H; cbn [granted].
  - reflexivity.
  - rewrite (H k) by (cbn [List.length]; lia).
    rewrite IH; [reflexivity|].
    intros i Hi. apply H. cbn [List.length]. lia.
Qed.

(** C9 (amended): [ipsa_sched] first asks for the queue, once, with 2 items
    of [sizeof(uint32_t)] = 4 bytes each, stores the handle in [xQueue] and
    reads it back for the test against NULL; after that [xQueue] is neither
    written nor read and no other queue is asked for.  When the queue is
    created the kernel has exactly that queue and [xQueue] is its handle;
    when it is not, the kernel has no queue and [xQueue] is NULL.  With the
    queue created, the five descriptors are handed to [xTaskCreate] in
    strictly increasing order of priority, the tasks that could be created
    are with the kernel in that order, and they are all five when no task
    allocation fails.  No iteration of any of the five task bodies makes a
    queue call. *)
Theorem queue_created_read_once_then_unused (c : config) (h : nat -> bool) :
  (exists rest,
     actions (snd (ipsa_sched c (boot h))) =
       queue_create 2 4 (xQueue (snd (ipsa_sched c (boot h))))
       :: store_xQueue (xQueue (snd (ipsa_sched c (boot h))))
       :: load_xQueue :: rest /\
     created_queues rest = [] /\
     xQueue_stores rest = 0%nat /\
     xQueue_loads rest = 0%nat) /\
  (h 0%nat = true ->
   xQueue (snd (ipsa_sched c (boot h))) = Some 0%nat /\
   queues (snd (ipsa_sched c (boot h))) = [(2, 4)]) /\
  (h 0%nat = false ->
   xQueue (snd (ipsa_sched c (boot h))) = None /\
   queues (snd (ipsa_sched c (boot h))) = []) /\
  (h 0%nat = true -> priorities_fit c ->
   created_tasks (actions (snd (ipsa_sched c (boot h)))) = descriptors c /\
   StronglySorted Z.lt
     (map uxPriority (created_tasks (actions (snd (ipsa_sched c (boot h)))))) /\
   registered (snd (ipsa_sched c (boot h))) = granted h 1 (descriptors c) /\
   StronglySorted Z.lt (map uxPriority (registered (snd (ipsa_sched c (boot h))))) /\
   ((forall k, (1 <= k <= 5)%nat -> h k = true) ->
    registered (snd (ipsa_sched c (boot h))) = descriptors c)) /\
  (forall n,
     queue_untouched (calls_at (vPeriodicTask1 c) n) /\
     queue_untouched (calls_at (vPeriodicTask2 c) n) /\
     queue_untouched (calls_at (vPeriodicTask3 c) n) /\
     queue_untouched (calls_at (vPeriodicTask4 c) n) /\
     queue_untouched (calls_at (aperiodicTask1 c) n)).
Proof.
  split; [|split; [|split; [|split]]].
  - destruct (h 0%nat) eqn:H.
    + rewrite (ipsa_sched_with_queue c h H). cbn [snd actions xQueue].
      eexists. split; [reflexivity|]. repeat split.
    + rewrite (ipsa_sched_without_queue c h H). cbn [snd actions xQueue].
      eexists. split; [reflexivity|]. repeat split.
  - intros H. rewrite (ipsa_sched_with_queue c h H). split; reflexivity.
  - intros H. rewrite (ipsa_sched_without_queue c h H). split; reflexivity.
  - intros H Hp. rewrite (ipsa_sched_with_queue c h H). cbn [snd actions registered].
    split; [reflexivity|].
    split; [exact (descriptors_sorted c Hp)|].
    split; [reflexivity|].
    split; [apply granted_sorted; exact (descriptors_sorted c Hp)|].
    intros Hall. apply granted_all. intros i Hi. apply Hall.
    unfold descriptors in Hi. cbn [List.length] in Hi. lia.
  - intros n. unfold queue_untouched. repeat split.
    + eexists. split; [apply task1_calls | reflexivity].
    + destruct (task2_calls c n) as [celsius H]. eexists. split; [exact H | reflexivity].
    + eexists. split; [apply task3_prints | reflexivity].
    + eexists. split; [apply task4_calls | reflexivity].
    + eexists. split; [apply aperiodic_calls | reflexivity].
Qed.

Lemma queue_created_read_once_then_unused_witness :
  (xQueue (snd (ipsa_sched linux_port (boot (fun _ => true)))) = Some 0%nat /\
   queues (snd (ipsa_sched linux_port (boot (fun _ => true)))) = [(2, 4)]) /\
  (xQueue (snd (ipsa_sched linux_port (boot (fun _ => false)))) = None /\
   queues (snd (ipsa_sched linux_port (boot (fun _ => false)))) = []) /\
  registered (snd (ipsa_sched linux_port (boot (fun _ => true)))) = descriptors linux_port.
Proof.
  assert (P : priorities_fit linux_port) by (unfold priorities_fit; simpl; lia).
  split; [|split].
  - exact (proj1 (proj2 (queue_created_read_once_then_unused linux_port (fun _ => true)))
             eq_refl).
  - exact (proj1 (proj2 (proj2
             (queue_created_read_once_then_unused linux_port (fun _ => false)))) eq_refl).
  - destruct (proj1 (proj2 (proj2 (proj2
               (queue_created_read_once_then_unused linux_port (fun _ => true)))))
               eq_refl P) as (_ & _ & _ & _ & H).
    apply H. intros k _. reflexivity.
Defined.
